(** * safe-disclosure: role based redaction with reversible tokens

    A shallow embedding of [safe_disclosure/tokenizer.py],
    [safe_disclosure/roles.py] and [safe_disclosure/core.py].

    Conventions.
    - A Python [str] is a [string]: an [ascii] is a code point below 256, so
      the texts covered are those of the Latin-1 range.  Character classes,
      case mapping and the UTF-8 encoding are Python's on that range.  The
      upper case of two of its characters, U+00B5 and U+00FF, lies outside
      it; see [Str.upper_char].
    - [dict]s whose iteration order is observable ([entity_patterns],
      [entities_found], [token_mapping], [custom_entities]) are association
      lists in insertion order; the tokenizer's two lookup tables and the
      role table are [gmap]s.
    - A Python [set] is a [gset]; the order in which a [for] loop visits
      it is not fixed by the language and is a parameter ([Runtime]).
    - [secrets.token_hex] is the other source of nondeterminism: the values
      it returns are read from an [Entropy] sequence. *)

From Stdlib Require Import NArith ZArith Ascii String.
From stdpp Require Import gmap strings list fin_maps.

Local Open Scope string_scope.

(** ** Python string primitives *)

Module Str.

Definition ord (c : ascii) : N := N_of_ascii c.

Definition in_range (lo hi : string) (c : ascii) : bool :=
  match lo, hi with
  | String l _, String h _ => (ord l <=? ord c)%N && (ord c <=? ord h)%N
  | _, _ => false
  end.

(** The ranges [A-Z], [a-z] and [0-9] of a pattern. *)
Definition is_upper (c : ascii) : bool := in_range "A" "Z" c.
Definition is_lower (c : ascii) : bool := in_range "a" "z" c.
Definition is_digit (c : ascii) : bool := in_range "0" "9" c.

(** The code of [c] lies in one of the ranges. *)
Definition among (ranges : list (N * N)) (c : ascii) : bool :=
  existsb (λ r, (r.1 <=? ord c)%N && (ord c <=? r.2)%N) ranges.

(** The letters that have another case: the ASCII letters, and the
    Latin-1 letters U+00C0..U+00DE and U+00E0..U+00FE without the
    multiplication and division signs U+00D7 and U+00F7. *)
Definition cased_upper : ascii → bool := among [(65, 90); (192, 214); (216, 222)]%N.
Definition cased_lower : ascii → bool := among [(97, 122); (224, 246); (248, 254)]%N.

(** [c.upper()]: a string, since the upper case of U+00DF is the two
    letters SS.  The upper case of U+00B5 is U+039C and that of U+00FF is
    U+0178, which no [ascii] stands for.  These two characters are kept:
    they are the upper case of no character, so that [upper] is Python's
    up to writing U+00B5 for U+039C and U+00FF for U+0178.  The statements
    that lower-case an upper-cased type leave the two out
    ([plain_type_char]). *)
Definition upper_char (c : ascii) : string :=
  if cased_lower c then String (ascii_of_N (ord c - 32)) EmptyString
  else if (ord c =? 223)%N then "SS"
  else String c EmptyString.

(** [c.lower()] *)
Definition lower_char (c : ascii) : ascii :=
  if cased_upper c then ascii_of_N (ord c + 32) else c.

(** [s.upper()] *)
Fixpoint upper (s : string) : string :=
  match s with
  | EmptyString => EmptyString
  | String c s' => upper_char c +:+ upper s'
  end.

(** [s.lower()] *)
Fixpoint lower (s : string) : string :=
  match s with
  | EmptyString => EmptyString
  | String c s' => String (lower_char c) (lower s')
  end.

(** [s.startswith(p)] *)
Fixpoint startswith (p s : string) : bool :=
  match p, s with
  | EmptyString, _ => true
  | String a p', String b s' => if Ascii.eqb a b then startswith p' s' else false
  | String _ _, EmptyString => false
  end.

(** [sub in s] *)
Fixpoint contains (sub s : string) : bool :=
  startswith sub s ||
  match s with
  | EmptyString => false
  | String _ s' => contains sub s'
  end.

(** [s[n:]] *)
Fixpoint drop (n : nat) (s : string) : string :=
  match n, s with
  | O, _ => s
  | S n', String _ s' => drop n' s'
  | S _, EmptyString => EmptyString
  end.

(** [s[:n]] *)
Fixpoint take (n : nat) (s : string) : string :=
  match n, s with
  | S n', String c s' => String c (take n' s')
  | _, _ => EmptyString
  end.

(** [all(f(c) for c in s)] *)
Fixpoint all (f : ascii → bool) (s : string) : bool :=
  match s with
  | EmptyString => true
  | String c s' => f c && all f s'
  end.

Definition differs (c : ascii) : ascii → bool := λ x, negb (Ascii.eqb x c).

(** [new] placed before every character of [s] and after the last one:
    what [s.replace("", new)] returns. *)
Fixpoint interleave (new s : string) : string :=
  match s with
  | EmptyString => new
  | String c s' => new +:+ String c (interleave new s')
  end.

(** Left-to-right scan of [s.replace(old, new)] for a non-empty [old];
    [skip] counts the characters of the occurrence just replaced that are
    still to be dropped. *)
Fixpoint replace_from (old new : string) (skip : nat) (s : string) : string :=
  match s with
  | EmptyString => EmptyString
  | String c s' =>
      match skip with
      | S k => replace_from old new k s'
      | O =>
          if startswith old s
          then new +:+ replace_from old new (String.length old - 1) s'
          else String c (replace_from old new 0 s')
      end
  end.

(** [s.replace(old, new)]: every non-overlapping occurrence, leftmost
    first; an empty [old] matches at every boundary. *)
Definition replace (old new s : string) : string :=
  match old with
  | EmptyString => interleave new s
  | String _ _ => replace_from old new 0 s
  end.

Fixpoint count_from (sub : string) (skip : nat) (s : string) : nat :=
  match s with
  | EmptyString => 0
  | String c s' =>
      match skip with
      | S k => count_from sub k s'
      | O =>
          if startswith sub s
          then S (count_from sub (String.length sub - 1) s')
          else count_from sub 0 s'
      end
  end.

(** [s.count(sub)]: the number of non-overlapping occurrences. *)
Definition count (sub s : string) : nat :=
  match sub with
  | EmptyString => S (String.length s)
  | String _ _ => count_from sub 0 s
  end.

(** [s.split(sep)] for a one-character separator; [cur] is the piece
    read so far. *)
Fixpoint split_go (sep : ascii) (cur : string) (s : string) : list string :=
  match s with
  | EmptyString => [cur]
  | String c s' =>
      if Ascii.eqb c sep
      then cur :: split_go sep EmptyString s'
      else split_go sep (cur +:+ String c EmptyString) s'
  end.

Definition split (sep : ascii) (s : string) : list string :=
  split_go sep EmptyString s.

End Str.

(** ** [hashlib.sha256(...).hexdigest()] (FIPS 180-4) *)

Module SHA256.

Local Open Scope N_scope.

Definition mask32 : N := 0xffffffff.
Definition add32 (x y : N) : N := N.land (x + y) mask32.
Definition rotr (n x : N) : N :=
  N.lor (N.shiftr x n) (N.land (N.shiftl x (32 - n)) mask32).
Definition not32 (x : N) : N := N.lxor x mask32.

Definition Ch (x y z : N) : N := N.lxor (N.land x y) (N.land (not32 x) z).
Definition Maj (x y z : N) : N :=
  N.lxor (N.lxor (N.land x y) (N.land x z)) (N.land y z).
Definition bsig0 (x : N) : N := N.lxor (N.lxor (rotr 2 x) (rotr 13 x)) (rotr 22 x).
Definition bsig1 (x : N) : N := N.lxor (N.lxor (rotr 6 x) (rotr 11 x)) (rotr 25 x).
Definition ssig0 (x : N) : N := N.lxor (N.lxor (rotr 7 x) (rotr 18 x)) (N.shiftr x 3).
Definition ssig1 (x : N) : N := N.lxor (N.lxor (rotr 17 x) (rotr 19 x)) (N.shiftr x 10).

Definition primes : list N :=
  [2; 3; 5; 7; 11; 13; 17; 19; 23; 29; 31; 37; 41; 43; 47; 53; 59; 61; 67; 71;
   73; 79; 83; 89; 97; 101; 103; 107; 109; 113; 127; 131; 137; 139; 149; 151;
   157; 163; 167; 173; 179; 181; 191; 193; 197; 199; 211; 223; 227; 229; 233;
   239; 241; 251; 257; 263; 269; 271; 277; 281; 283; 293; 307; 311].

(** The largest [r] below [2^bits] with [r^3 <= n], found bit by bit. *)
Fixpoint cube_root (bits : nat) (n r : N) : N :=
  match bits with
  | O => r
  | S b =>
      let r' := r + 2 ^ N.of_nat b in
      cube_root b n (if r' ^ 3 <=? n then r' else r)
  end.

(** Round constants: the first 32 bits of the fractional part of the cube
    root of each of the first 64 primes. *)
Definition K : list N :=
  Eval vm_compute in
    map (λ p, N.land (cube_root 36 (p * 2 ^ 96) 0) mask32) primes.

(** Initial hash value: the same of the square roots of the first 8 primes. *)
Definition H0 : list N :=
  Eval vm_compute in
    map (λ p, N.land (N.sqrt (p * 2 ^ 64)) mask32) (firstn 8 primes).

(** [str.encode()]: UTF-8 of code points below 256. *)
Fixpoint encode (s : string) : list N :=
  match s with
  | EmptyString => []
  | String c s' =>
      let n := N_of_ascii c in
      if n <? 128 then n :: encode s'
      else N.lor 0xc0 (N.shiftr n 6) :: N.lor 0x80 (N.land n 0x3f) :: encode s'
  end.

(** Big-endian bytes of [x], [n] of them. *)
Fixpoint be_bytes (n : nat) (x : N) : list N :=
  match n with
  | O => []
  | S n' => N.land (N.shiftr x (8 * N.of_nat n')) 0xff :: be_bytes n' x
  end.

Definition pad (msg : list N) : list N :=
  let len := N.of_nat (length msg) in
  let zeros := N.to_nat ((119 - len mod 64) mod 64) in
  msg ++ [0x80] ++ replicate zeros 0 ++ be_bytes 8 (8 * len).

Fixpoint be_words (fuel : nat) (bs : list N) : list N :=
  match fuel, bs with
  | S f, b0 :: b1 :: b2 :: b3 :: rest =>
      (N.shiftl b0 24 + N.shiftl b1 16 + N.shiftl b2 8 + b3) :: be_words f rest
  | _, _ => []
  end.

Definition nthw (i : nat) (w : list N) : N := nth i w 0.

(** One round: working variables [a..h] as a list, schedule window [w]
    holding W[t] .. W[t+15]. *)
Definition round (st : list N * list N) (k : N) : list N * list N :=
  let '(v, w) := st in
  let a := nthw 0 v in let b := nthw 1 v in let c := nthw 2 v in let d := nthw 3 v in
  let e := nthw 4 v in let f := nthw 5 v in let g := nthw 6 v in let h := nthw 7 v in
  let t1 := add32 (add32 (add32 (add32 h (bsig1 e)) (Ch e f g)) k) (nthw 0 w) in
  let t2 := add32 (bsig0 a) (Maj a b c) in
  let wn := add32 (add32 (add32 (ssig1 (nthw 14 w)) (nthw 9 w)) (ssig0 (nthw 1 w))) (nthw 0 w) in
  ([add32 t1 t2; a; b; c; add32 d t1; e; f; g], (tl w ++ [wn])%list).

Definition compress (h : list N) (block : list N) : list N :=
  let '(v, _) := fold_left round K (h, block) in
  zip_with add32 h v.

Fixpoint blocks (fuel : nat) (ws : list N) : list (list N) :=
  match fuel, ws with
  | S f, _ :: _ => firstn 16 ws :: blocks f (skipn 16 ws)
  | _, _ => []
  end.

Definition digest_words (msg : list N) : list N :=
  let bs := pad msg in
  let ws := be_words (length bs) bs in
  fold_left compress (blocks (length ws) ws) H0.

Definition is_hex (c : ascii) : bool :=
  Str.is_digit c || Str.in_range "a" "f" c.

Definition hex_digit (n : N) : ascii :=
  if n <? 10 then ascii_of_N (48 + n) else ascii_of_N (87 + n).

Fixpoint hex_of_word (nibbles : nat) (x : N) : string :=
  match nibbles with
  | O => EmptyString
  | S n' =>
      String (hex_digit (N.land (N.shiftr x (4 * N.of_nat n')) 0xf)) (hex_of_word n' x)
  end.

Fixpoint hex_of_words (ws : list N) : string :=
  match ws with
  | [] => EmptyString
  | x :: ws' => hex_of_word 8 x +:+ hex_of_words ws'
  end.

(** [hashlib.sha256(s.encode()).hexdigest()] *)
Definition hexdigest (s : string) : string :=
  hex_of_words (digest_words (encode s)).

End SHA256.


(** ** [re.findall] on the fragment of regular expressions used by the
    default patterns: a sequence of word boundaries and greedily repeated
    character classes (no groups, so [findall] returns whole matches). *)

Module Re.

Definition charclass := ascii → bool.

Inductive item :=
| Boundary                                            (* \b *)
| Rep (f : charclass) (lo : nat) (hi : option nat).   (* [..]{lo,hi} *)

Definition pattern := list item.

(** [[...]] from its ranges and its single characters *)
Definition cls (ranges : list (string * string)) (chars : string) : charclass :=
  λ c, existsb (λ r, Str.in_range r.1 r.2 c) ranges
       || Str.contains (String c EmptyString) chars.

(** [\d], [\s] and [\w] of a [str] pattern are the decimal digits, the
    white space and the alphanumeric characters of Unicode, with the
    underscore for [\w].  Below U+0100 these are: the digits 0 to 9; the
    controls U+0009..U+000D and U+001C..U+001F, the space, U+0085 and
    U+00A0; the ASCII letters and digits, the underscore, and the letters
    and numerals of Latin-1 (U+00AA, U+00B2, U+00B3, U+00B5, U+00B9,
    U+00BA, U+00BC..U+00BE, U+00C0..U+00FF without U+00D7 and U+00F7). *)
Definition digit : charclass := Str.is_digit.
Definition space : charclass :=
  Str.among [(9, 13); (28, 32); (133, 133); (160, 160)]%N.
Definition word : charclass :=
  Str.among [(48, 57); (65, 90); (95, 95); (97, 122); (170, 170); (178, 179);
             (181, 181); (185, 186); (188, 190); (192, 214); (216, 246);
             (248, 255)]%N.

Definition one (f : charclass) : item := Rep f 1 (Some 1).     (* x    *)
Definition opt (f : charclass) : item := Rep f 0 (Some 1).     (* x?   *)
Definition plus (f : charclass) : item := Rep f 1 None.        (* x+   *)
Definition exactly (n : nat) (f : charclass) : item := Rep f n (Some n).  (* x{n} *)
Definition lit (s : string) : item := one (cls [] s).

(** A matcher reads the character before the current position (for
    [\b]) and the rest of the text, and answers the text left after the
    match of highest priority. *)
Definition matcher := option ascii → string → option string.

Definition is_word (c : option ascii) : bool :=
  match c with Some c => word c | None => false end.

Definition next_char (s : string) : option ascii :=
  match s with String c _ => Some c | EmptyString => None end.

Definition at_boundary (prev : option ascii) (s : string) : bool :=
  xorb (is_word prev) (is_word (next_char s)).

(** Greedy repetition: take one more character when allowed, and fall
    back to stopping here when the rest of the pattern then fails. *)
Fixpoint rep (f : charclass) (k : matcher) (lo : nat) (hi : option nat)
    (prev : option ascii) (s : string) {struct s} : option string :=
  let stop := match lo with O => k prev s | S _ => None end in
  match hi, s with
  | Some O, _ => stop
  | _, String c s' =>
      if f c
      then match rep f k (pred lo) (pred <$> hi) (Some c) s' with
           | Some r => Some r
           | None => stop
           end
      else stop
  | _, EmptyString => stop
  end.

Definition run_item (i : item) (k : matcher) : matcher :=
  match i with
  | Boundary => λ prev s, if at_boundary prev s then k prev s else None
  | Rep f lo hi => rep f k lo hi
  end.

Fixpoint run (p : pattern) (k : matcher) : matcher :=
  match p with
  | [] => k
  | i :: p' => run_item i (run p' k)
  end.

(** The match starting exactly here, as the text that follows it. *)
Definition match_here (p : pattern) : matcher := run p (λ _ rest, Some rest).

(** The scan of [findall]: [skip] characters of the last match are still
    to be passed over; after an empty match the scan moves on by one
    character. *)
Fixpoint scan (p : pattern) (skip : nat) (prev : option ascii) (s : string)
    : list string :=
  match skip with
  | S k =>
      match s with
      | String c s' => scan p k (Some c) s'
      | EmptyString => []
      end
  | O =>
      match match_here p prev s with
      | Some rest =>
          let n := String.length s - String.length rest in
          Str.take n s ::
            match s with
            | String c s' => scan p (n - 1) (Some c) s'
            | EmptyString => []
            end
      | None =>
          match s with
          | String c s' => scan p 0 (Some c) s'
          | EmptyString => []
          end
      end
  end.

(** [re.findall(p, text)] *)
Definition findall (p : pattern) (text : string) : list string :=
  scan p 0 None text.

End Re.

(** ** Insertion-ordered dictionaries with string keys *)

Module Dict.

Section Ops.
Context {V : Type}.

(** [d[k] = v]: overwrite in place, or append a new key *)
Fixpoint set (d : list (string * V)) (k : string) (v : V) : list (string * V) :=
  match d with
  | [] => [(k, v)]
  | (k', v') :: d' =>
      if String.eqb k' k then (k', v) :: d' else (k', v') :: set d' k v
  end.

Fixpoint get (d : list (string * V)) (k : string) : option V :=
  match d with
  | [] => None
  | (k', v') :: d' => if String.eqb k' k then Some v' else get d' k
  end.

(** [d.get(k, default)] *)
Definition get_default (d : list (string * V)) (k : string) (default : V) : V :=
  match get d k with Some v => v | None => default end.

Definition keys (d : list (string * V)) : list string := fst <$> d.
End Ops.

End Dict.

(** ** tokenizer.py *)

(** The values [secrets.token_hex(8)] returns, in the order of the calls. *)
Record Entropy := {
  hex_values : nat → string;
  drawn : nat
}.

Definition token_hex (os : Entropy) : string * Entropy :=
  (hex_values os (drawn os),
   {| hex_values := hex_values os; drawn := S (drawn os) |}).

Record Tokenizer := {
  token_prefix : string;
  token_counter : Z;
  entity_tokens : gmap string string;              (* entity_value -> token *)
  token_entities : gmap string (string * string)   (* token -> (entity_type, entity_value) *)
}.

(** [Tokenizer(token_prefix)] *)
Definition Tokenizer_new (prefix : string) : Tokenizer :=
  {| token_prefix := prefix; token_counter := 0;
     entity_tokens := ∅; token_entities := ∅ |}.

(** [Tokenizer()] *)
Definition Tokenizer_init : Tokenizer := Tokenizer_new "TOKEN_".

(** [hashlib.sha256(f"{entity_type}:{entity_value}:{nonce}".encode()).hexdigest()[:12]] *)
Definition entity_hash (entity_type entity_value nonce : string) : string :=
  Str.take 12
    (SHA256.hexdigest (entity_type +:+ ":" +:+ entity_value +:+ ":" +:+ nonce)).

Definition make_token (prefix entity_type hash : string) : string :=
  prefix +:+ Str.upper entity_type +:+ "_" +:+ hash.

Definition generate_token (self : Tokenizer) (os : Entropy)
    (entity_type entity_value : string) : string * Tokenizer * Entropy :=
  match entity_tokens self !! entity_value with
  | Some token => (token, self, os)
  | None =>
      let '(nonce, os') := token_hex os in
      let token :=
        make_token (token_prefix self) entity_type
          (entity_hash entity_type entity_value nonce) in
      (token,
       {| token_prefix := token_prefix self;
          token_counter := token_counter self;
          entity_tokens := <[entity_value := token]> (entity_tokens self);
          token_entities := <[token := (entity_type, entity_value)]> (token_entities self) |},
       os')
  end.

Definition get_entity_type_from_token (self : Tokenizer) (token : string) : string :=
  match token_entities self !! token with
  | Some e => e.1
  | None =>
      if Str.startswith (token_prefix self) token
      then
        let parts :=
          Str.split "_" (Str.drop (String.length (token_prefix self)) token) in
        if (2 <=? length parts)%nat then Str.lower (nth 0 parts "") else "unknown"
      else "unknown"
  end.

Definition get_original_value (self : Tokenizer) (token : string) : string :=
  match token_entities self !! token with
  | Some e => e.2
  | None => token
  end.

Definition clear_tokens (self : Tokenizer) : Tokenizer :=
  {| token_prefix := token_prefix self; token_counter := 0;
     entity_tokens := ∅; token_entities := ∅ |}.

(** ** roles.py *)

(** One entry of the role table.  [can_restore] and [description] are read
    with [dict.get] and may be missing from a configured role. *)
Record Role := {
  allowed_entities : list string;
  can_restore_field : option bool;
  description : option string
}.

Record RoleManager := { roles : gmap string Role }.

Definition mk_role (allowed : list string) (restore : bool) (descr : string) : Role :=
  {| allowed_entities := allowed;
     can_restore_field := Some restore;
     description := Some descr |}.

Definition _load_default_roles : gmap string Role :=
  <["security" :=
      mk_role ["name"; "email"; "phone"; "ip_address"; "ssn"; "credit_card"] true
        "Security team - all entities visible"]>
  (<["admin" :=
      mk_role ["name"; "email"; "phone"; "ip_address"] true
        "Admin level - most entities visible except highly sensitive"]>
  (<["manager" :=
      mk_role ["name"; "email"] true
        "Management level - names and emails visible"]>
  (<["internal" :=
      mk_role ["name"] false
        "Internal team - names visible but other data redacted"]>
  (<["public" :=
      mk_role [] false "Public audience - no sensitive data visible"]> ∅)))).

Definition RoleManager_init : RoleManager := {| roles := _load_default_roles |}.

(** [self.roles.update(roles_config)] *)
Definition load_roles (self : RoleManager) (roles_config : list (string * Role))
    : RoleManager :=
  {| roles := fold_left (λ m kv, <[kv.1 := kv.2]> m) roles_config (roles self) |}.

Definition add_role (self : RoleManager) (role_name : string)
    (allowed : list string) (restore : bool) (descr : string) : RoleManager :=
  {| roles := <[role_name := mk_role allowed restore descr]> (roles self) |}.

Definition get_allowed_entities (self : RoleManager) (role_name : string)
    : gset string :=
  match roles self !! role_name with
  | None => ∅
  | Some r => list_to_set (allowed_entities r)
  end.

Definition can_restore (self : RoleManager) (role_name : string) : bool :=
  match roles self !! role_name with
  | None => false
  | Some r => default false (can_restore_field r)
  end.

Definition role_levels : list (string * Z) :=
  [("public", 0); ("internal", 1); ("manager", 2); ("admin", 3); ("security", 4)]%Z.

Definition requester_level (requester_role : string) : Z :=
  Dict.get_default role_levels requester_role (-1)%Z.

Definition target_level (target_role : string) : Z :=
  Dict.get_default role_levels target_role 0%Z.

Definition role_hierarchy_check (requester_role target_role : string) : bool :=
  (requester_level requester_role >=? target_level target_role)%Z.

(** ** core.py *)

(** The order in which a [for] loop visits a [set]: some enumeration of
    its elements, fixed by the interpreter's string hashing. *)
Record Runtime := {
  set_iter : gset string → list string;
  set_iter_perm : ∀ s, set_iter s ≡ₚ elements s
}.

Definition canonical_runtime : Runtime :=
  {| set_iter := elements; set_iter_perm := λ s, reflexivity (elements s) |}.

Record SafeDisclosure := {
  tokenizer : Tokenizer;
  role_manager : RoleManager;
  entity_patterns : list (string * Re.pattern)
}.

Definition _load_default_patterns : list (string * Re.pattern) :=
  let alnum := [("A", "Z"); ("a", "z"); ("0", "9")] in
  let d := Re.digit in
  [ (* \b[A-Za-z0-9._%+-]+@[A-Za-z0-9.-]+\.[A-Z|a-z]{2,}\b *)
    ("email",
     [Re.Boundary; Re.plus (Re.cls alnum "._%+-"); Re.lit "@";
      Re.plus (Re.cls alnum ".-"); Re.lit ".";
      Re.Rep (Re.cls [("A", "Z"); ("a", "z")] "|") 2 None; Re.Boundary]);
    (* \b\d{3}[-.]?\d{3}[-.]?\d{4}\b *)
    ("phone",
     [Re.Boundary; Re.exactly 3 d; Re.opt (Re.cls [] "-."); Re.exactly 3 d;
      Re.opt (Re.cls [] "-."); Re.exactly 4 d; Re.Boundary]);
    (* \b\d{3}-?\d{2}-?\d{4}\b *)
    ("ssn",
     [Re.Boundary; Re.exactly 3 d; Re.opt (Re.cls [] "-"); Re.exactly 2 d;
      Re.opt (Re.cls [] "-"); Re.exactly 4 d; Re.Boundary]);
    (* \b\d{4}[\s-]?\d{4}[\s-]?\d{4}[\s-]?\d{4}\b *)
    ("credit_card",
     let sep := Re.opt (λ c, Re.space c || Re.cls [] "-" c) in
     [Re.Boundary; Re.exactly 4 d; sep; Re.exactly 4 d; sep; Re.exactly 4 d; sep;
      Re.exactly 4 d; Re.Boundary]);
    (* \b\d{1,3}\.\d{1,3}\.\d{1,3}\.\d{1,3}\b *)
    ("ip_address",
     let octet := Re.Rep d 1 (Some 3) in
     [Re.Boundary; octet; Re.lit "."; octet; Re.lit "."; octet; Re.lit "."; octet;
      Re.Boundary]);
    (* \b[A-Z][a-z]+ [A-Z][a-z]+\b *)
    ("name",
     [Re.Boundary; Re.one Str.is_upper; Re.plus Str.is_lower; Re.lit " ";
      Re.one Str.is_upper; Re.plus Str.is_lower; Re.Boundary]) ].

(** [SafeDisclosure()] *)
Definition SafeDisclosure_init : SafeDisclosure :=
  {| tokenizer := Tokenizer_init;
     role_manager := RoleManager_init;
     entity_patterns := _load_default_patterns |}.

Abbreviation entities := (list (string * gset string)).

(** First loop of [_find_entities]: one pattern. *)
Definition find_pattern (text : string) (found : entities)
    (entry : string * Re.pattern) : entities :=
  let matches : gset string := list_to_set (Re.findall entry.2 text) in
  if bool_decide (matches = ∅) then found else Dict.set found entry.1 matches.

(** [found_custom] for one list of literal values *)
Definition found_custom (text : string) (entity_list : list string) : gset string :=
  fold_left (λ acc entity, if Str.contains entity text then acc ∪ {[entity]} else acc)
    entity_list ∅.

(** Second loop of [_find_entities]: one custom entity type. *)
Definition find_custom (text : string) (found : entities)
    (entry : string * list string) : entities :=
  let fc := found_custom text entry.2 in
  if bool_decide (fc = ∅) then found
  else Dict.set found entry.1 (Dict.get_default found entry.1 ∅ ∪ fc).

Definition _find_entities (self : SafeDisclosure) (text : string)
    (custom_entities : option (list (string * list string))) : entities :=
  let found := fold_left (find_pattern text) (entity_patterns self) [] in
  match custom_entities with
  | None | Some [] => found
  | Some custom => fold_left (find_custom text) custom found
  end.

(** The variables the loops of [redact_document] update. *)
Record Redaction := {
  r_tokenizer : Tokenizer;
  r_entropy : Entropy;
  redacted_text : string;
  token_mapping : list (string * string)
}.

(** Body of the inner loop, for one matched value. *)
Definition redact_match (entity_type : string) (st : Redaction) (m : string)
    : Redaction :=
  let '(token, tk, os) :=
    generate_token (r_tokenizer st) (r_entropy st) entity_type m in
  {| r_tokenizer := tk;
     r_entropy := os;
     redacted_text := Str.replace m token (redacted_text st);
     token_mapping := Dict.set (token_mapping st) token m |}.

(** Body of the outer loop, for one entity type and its matches. *)
Definition redact_type (rt : Runtime) (allowed : gset string) (st : Redaction)
    (entry : string * gset string) : Redaction :=
  if bool_decide (entry.1 ∈ allowed) then st
  else fold_left (redact_match entry.1) (set_iter rt entry.2) st.

Definition redact_loop (rt : Runtime) (self : SafeDisclosure) (os : Entropy)
    (text : string) (target_role : string)
    (custom_entities : option (list (string * list string))) : Redaction :=
  let allowed := get_allowed_entities (role_manager self) target_role in
  let entities_found := _find_entities self text custom_entities in
  fold_left (redact_type rt allowed) entities_found
    {| r_tokenizer := tokenizer self; r_entropy := os;
       redacted_text := text; token_mapping := [] |}.

(** [redact_document]: the returned pair, and the instance and the entropy
    source as the call leaves them. *)
Definition redact_document (rt : Runtime) (self : SafeDisclosure) (os : Entropy)
    (text : string) (target_role : string)
    (custom_entities : option (list (string * list string)))
    : (string * list (string * string)) * SafeDisclosure * Entropy :=
  let st := redact_loop rt self os text target_role custom_entities in
  ((redacted_text st, token_mapping st),
   {| tokenizer := r_tokenizer st;
      role_manager := role_manager self;
      entity_patterns := entity_patterns self |},
   r_entropy st).

(** Body of the loop of [restore_document], for one entry of the map. *)
Definition restore_entry (tk : Tokenizer) (allowed : gset string)
    (restored_text : string) (entry : string * string) : string :=
  if bool_decide (get_entity_type_from_token tk entry.1 ∈ allowed)
  then Str.replace entry.1 entry.2 restored_text
  else restored_text.

Definition restore_document (self : SafeDisclosure) (redacted : string)
    (mapping : list (string * string)) (requester_role : string) : string :=
  if negb (can_restore (role_manager self) requester_role) then redacted
  else
    let allowed := get_allowed_entities (role_manager self) requester_role in
    fold_left (restore_entry (tokenizer self) allowed) mapping redacted.

(** An entropy source whose first draws are the given values. *)
Definition entropy_of (nonces : list string) : Entropy :=
  {| hex_values := λ n, nth n nonces "0000000000000000"; drawn := 0 |}.


(** ** Sequences of calls on one [Tokenizer] *)

(** [generate_token] called for each (entity_type, entity_value) of [calls]
    in turn; the tokens returned, in the order of the calls. *)
Fixpoint mint_all (self : Tokenizer) (os : Entropy) (calls : list (string * string))
    : list string * Tokenizer * Entropy :=
  match calls with
  | [] => ([], self, os)
  | c :: calls' =>
      let '(token, self1, os1) := generate_token self os c.1 c.2 in
      let '(tokens, self2, os2) := mint_all self1 os1 calls' in
      (token :: tokens, self2, os2)
  end.

(** The entity type of the first call of [calls] made for [value]. *)
Fixpoint minted_as (calls : list (string * string)) (value : string) : option string :=
  match calls with
  | [] => None
  | c :: calls' => if String.eqb c.2 value then Some c.1 else minted_as calls' value
  end.

(** No two values of the instance share a token string. *)
Definition tokens_distinct (self : Tokenizer) : Prop :=
  NoDup (map_to_list (entity_tokens self)).*2.

Definition builtin_roles : list string :=
  ["public"; "internal"; "manager"; "admin"; "security"].

(** The value -> token table is injective. *)
Definition injective_tokens (self : Tokenizer) : Prop :=
  ∀ v1 v2 t,
    entity_tokens self !! v1 = Some t → entity_tokens self !! v2 = Some t → v1 = v2.

(** The tables of [self] are those left by the calls [hist] on a new
    instance: a value has a token exactly when some call passed it, and
    the token's record holds that value and the type of the first such
    call. *)
Definition records (self : Tokenizer) (hist : list (string * string)) : Prop :=
  (∀ v, entity_tokens self !! v = None → minted_as hist v = None) ∧
  (∀ v t, entity_tokens self !! v = Some t →
     ∃ ty0, minted_as hist v = Some ty0 ∧ token_entities self !! t = Some (ty0, v)).


(** An instance as [SafeDisclosure()] builds it, after any use of its
    tokenizer. *)
Definition default_instance (tk : Tokenizer) : SafeDisclosure :=
  {| tokenizer := tk;
     role_manager := RoleManager_init;
     entity_patterns := _load_default_patterns |}.

(** The text of the end-to-end scenario. *)
Definition scenario_text : string :=
  "Hello John Doe, email john.doe@example.com, phone 555-123-4567.".

(** The detected entries whose type the role may not see: the ones the
    loop of [redact_document] tokenizes. *)
Definition withheld (allowed : gset string) (found : entities) : entities :=
  filter (λ e, e.1 ∉ allowed) found.


(** ** Further definitions *)

(** Every record of the token table was written by a call of [hist] that
    minted the token for its value. *)
Definition consistent (self : Tokenizer) (hist : list (string * string)) : Prop :=
  ∀ t ty v,
    token_entities self !! t = Some (ty, v) →
    entity_tokens self !! v = Some t ∧
    (ty, v) ∈ hist ∧
    ∃ nonce, t = make_token (token_prefix self) ty (entity_hash ty v nonce).

(** [RoleManager.get_role_description] *)
Definition get_role_description (self : RoleManager) (role_name : string) : string :=
  match roles self !! role_name with
  | None => "Unknown role: " +:+ role_name
  | Some r => default "" (description r)
  end.

(** What the three getters of [RoleManager] answer for a role name. *)
Definition role_view (self : RoleManager) (role_name : string)
    : gset string * bool * string :=
  (get_allowed_entities self role_name,
   can_restore self role_name,
   get_role_description self role_name).

(** The fewest and the most characters a match of a pattern can have
    ([None]: no upper bound). *)
Definition item_min (i : Re.item) : nat :=
  match i with Re.Boundary => 0 | Re.Rep _ lo _ => lo end.

Definition item_max (i : Re.item) : option nat :=
  match i with Re.Boundary => Some 0%nat | Re.Rep _ _ hi => hi end.

Definition min_length (p : Re.pattern) : nat :=
  foldr (λ i n, (item_min i + n)%nat) 0%nat p.

Definition max_length (p : Re.pattern) : option nat :=
  foldr (λ i acc, match item_max i, acc with
                  | Some a, Some b => Some (a + b)%nat
                  | _, _ => None
                  end) (Some 0%nat) p.

(** A bound [hi] that may be missing allows [n]. *)
Definition within (n : nat) (hi : option nat) : Prop :=
  match hi with Some h => (n ≤ h)%nat | None => True end.

(** Every entry of [found] holds a non-empty set whose members satisfy [Q]
    for the entry's type. *)
Definition entries_sound (Q : string → string → Prop) (found : entities) : Prop :=
  ∀ T S, Dict.get found T = Some S → S ≠ ∅ ∧ ∀ v, v ∈ S → Q T v.

(** Where a detected value of type [T] comes from: a match of a pattern
    registered for [T], or a literal of a custom list given for [T]. *)
Definition origin (self : SafeDisclosure) (text : string)
    (custom_entities : option (list (string * list string))) (T v : string) : Prop :=
  (∃ p, (T, p) ∈ entity_patterns self ∧ v ∈ Re.findall p text) ∨
  (∃ cs l, custom_entities = Some cs ∧ (T, l) ∈ cs ∧ v ∈ l).

(** The lengths the default patterns allow, per entity type. *)
Definition default_lengths : list (string * (nat * option nat)) :=
  [("email", (6, None)); ("phone", (10, Some 12)); ("ssn", (9, Some 11));
   ("credit_card", (16, Some 19)); ("ip_address", (7, Some 15));
   ("name", (5, None))]%nat.

(** The (entity type, value) pairs the two loops of [redact_document]
    visit, in the order they visit them. *)
Definition visits (rt : Runtime) (allowed : gset string) (found : entities)
    : list (string * string) :=
  found ≫= λ e, if bool_decide (e.1 ∈ allowed) then [] else pair e.1 <$> set_iter rt e.2.

(** The loop body of [redact_document] on a pair. *)
Definition redact_visit (st : Redaction) (tm : string * string) : Redaction :=
  redact_match tm.1 st tm.2.

(** What the loops do to the text and the map when every token is read
    from the table [tokens] of an instance. *)
Definition substitute (tokens : gmap string string)
    (acc : string * list (string * string)) (tm : string * string)
    : string * list (string * string) :=
  let token := default "" (tokens !! tm.2) in
  (Str.replace tm.2 token acc.1, Dict.set acc.2 token tm.2).

(** ** core.py: loading a configuration *)

(** A configuration as [json.load] returns it: the keys patterns and roles
    may each be missing.  Patterns are taken as parsed. *)
Record Config := {
  cfg_patterns : option (list (string * Re.pattern));
  cfg_roles : option (list (string * Role))
}.

(** What [open] and [json.load] find at the path. *)
Inductive ConfigFile :=
| NoSuchFile
| NotJson
| Json (config : Config).

Inductive Raised :=
| FileNotFoundError (message : string)
| ValueError (message : string).

(** [d.update(other)] *)
Definition dict_update {V} (d other : list (string * V)) : list (string * V) :=
  fold_left (λ d kv, Dict.set d kv.1 kv.2) other d.

Definition load_config (self : SafeDisclosure) (config_path : string)
    (file : ConfigFile) : Raised + SafeDisclosure :=
  match file with
  | NoSuchFile =>
      inl (FileNotFoundError ("Configuration file not found: " +:+ config_path))
  | NotJson =>
      inl (ValueError ("Invalid JSON in configuration file: " +:+ config_path))
  | Json config =>
      inr {| tokenizer := tokenizer self;
             role_manager :=
               match cfg_roles config with
               | Some rs => load_roles (role_manager self) rs
               | None => role_manager self
               end;
             entity_patterns :=
               match cfg_patterns config with
               | Some ps => dict_update (entity_patterns self) ps
               | None => entity_patterns self
               end |}
  end.

(** * Properties *)

(** ** Strings *)

Section StrFacts.
Implicit Types (s a b old new : string) (c : ascii) (f : ascii → bool).

Lemma all_app f a b : Str.all f (a +:+ b) = Str.all f a && Str.all f b.
Proof. induction a as [|x a IH]; simpl; [done|]. by rewrite IH, andb_assoc. Qed.

Lemma all_take f n : ∀ s, Str.all f s = true → Str.all f (Str.take n s) = true.
Proof.
  induction n as [|n IH]; intros [|x s] H; simpl in *; try done.
  apply andb_true_iff in H as [-> H]. simpl. by apply IH.
Qed.

Lemma all_impl f g s :
  (∀ x, f x = true → g x = true) → Str.all f s = true → Str.all g s = true.
Proof.
  intros Hfg. induction s as [|x s IH]; simpl; [done|].
  intros [Hx Hs]%andb_true_iff. by rewrite (Hfg x Hx), IH.
Qed.

Lemma all_get f s : ∀ k c,
  Str.all f s = true → String.get k s = Some c → f c = true.
Proof.
  induction s as [|x s IH]; intros k c H Hk; simpl in *; [done|].
  apply andb_true_iff in H as [Hx Hs].
  destruct k as [|k]; [congruence|]. by eapply IH.
Qed.

Lemma take_get k : ∀ s j c,
  (j < k)%nat → String.get j s = Some c → String.get j (Str.take k s) = Some c.
Proof.
  induction k as [|k IH]; intros [|x s] j c Hj H; simpl in *; try done; try lia.
  destruct j as [|j]; [done|]. apply IH; [lia|done].
Qed.

Lemma startswith_get old : ∀ s k c,
  Str.startswith old s = true → String.get k old = Some c → String.get k s = Some c.
Proof.
  induction old as [|o old IH]; intros [|x s] k c H Hk; simpl in *; try done.
  destruct (Ascii.eqb_spec o x) as [->|]; [|done].
  destruct k as [|k]; [done|]. by eapply IH.
Qed.

(** A character missing from [a] and from the first [k] characters of
    [b] is not at index [k] of [x a b]. *)
Lemma get_app_differs c k b : ∀ a x n,
  Str.all (Str.differs c) (String x a) = true →
  Str.all (Str.differs c) (Str.take k b) = true →
  (n ≤ String.length a + k)%nat →
  String.get n (String x a +:+ b) ≠ Some c.
Proof.
  induction a as [|y a IH]; intros x n Ha Hb Hn Hget.
  - simpl in Ha, Hn, Hget. rewrite andb_true_r in Ha.
    destruct n as [|n].
    + injection Hget as ->. unfold Str.differs in Ha.
      by rewrite Ascii.eqb_refl in Ha.
    + assert (n < k)%nat as Hlt by lia.
      pose proof (all_get _ _ _ _ Hb (take_get k b n c Hlt Hget)) as Hd.
      unfold Str.differs in Hd. by rewrite Ascii.eqb_refl in Hd.
  - change (Str.all (Str.differs c) (String x (String y a)))
      with (Str.differs c x && Str.all (Str.differs c) (String y a)) in Ha.
    apply andb_true_iff in Ha as [Hx Ha].
    destruct n as [|n].
    + simpl in Hget. injection Hget as ->. unfold Str.differs in Hx.
      by rewrite Ascii.eqb_refl in Hx.
    + apply (IH y n Ha Hb); [simpl in Hn; lia|done].
Qed.

(** [replace] passes over a prefix in which no occurrence of [old] can
    start, for want of the character [old] has at index [k]. *)
Lemma replace_from_past old new c k b :
  String.get k old = Some c →
  Str.all (Str.differs c) (Str.take k b) = true →
  ∀ a, Str.all (Str.differs c) a = true →
  Str.replace_from old new 0 (a +:+ b) = a +:+ Str.replace_from old new 0 b.
Proof.
  intros Hk Hb. induction a as [|x a IH]; intros Ha; [done|].
  change (String x a +:+ b) with (String x (a +:+ b)).
  cbn [Str.replace_from].
  destruct (Str.startswith old (String x (a +:+ b))) eqn:E.
  - exfalso. pose proof (startswith_get _ _ _ _ E Hk) as Hget.
    destruct (decide (k ≤ String.length a + k)%nat) as [Hle|]; [|lia].
    exact (get_app_differs c k b a x k Ha Hb Hle Hget).
  - simpl in Ha. apply andb_true_iff in Ha as [_ Ha].
    simpl. by rewrite IH.
Qed.
End StrFacts.

(** ** The digest *)

(** The test vector of FIPS 180-4 for the message abc. *)
Example sha256_abc :
  SHA256.hexdigest "abc"
  = "ba7816bf8f01cfea414140de5dae2223b00361a396177a9cb410ff61f20015ad".
Proof. vm_compute. reflexivity. Qed.

Section HexFacts.
Local Open Scope N_scope.

Lemma hex_digit_is_hex n : n < 16 → SHA256.is_hex (SHA256.hex_digit n) = true.
Proof.
  intros H.
  assert (n = 0 ∨ n = 1 ∨ n = 2 ∨ n = 3 ∨ n = 4 ∨ n = 5 ∨ n = 6 ∨ n = 7 ∨
          n = 8 ∨ n = 9 ∨ n = 10 ∨ n = 11 ∨ n = 12 ∨ n = 13 ∨ n = 14 ∨ n = 15)
    as Hn by lia.
  repeat (destruct Hn as [->|Hn]; [reflexivity|]). by subst.
Qed.

Lemma hex_of_word_is_hex n x :
  Str.all SHA256.is_hex (SHA256.hex_of_word n x) = true.
Proof.
  induction n as [|n IH]; [done|].
  cbn [SHA256.hex_of_word Str.all]. rewrite IH, andb_true_r.
  apply hex_digit_is_hex.
  change 0xf with (N.ones 4). rewrite N.land_ones. by apply N.mod_lt.
Qed.

Lemma hexdigest_is_hex s : Str.all SHA256.is_hex (SHA256.hexdigest s) = true.
Proof.
  unfold SHA256.hexdigest. generalize (SHA256.digest_words (SHA256.encode s)).
  induction l as [|x l IH]; [done|].
  cbn [SHA256.hex_of_words]. by rewrite all_app, hex_of_word_is_hex, IH.
Qed.

Lemma entity_hash_is_hex ty v nonce :
  Str.all SHA256.is_hex (entity_hash ty v nonce) = true.
Proof. apply all_take, hexdigest_is_hex. Qed.

Lemma is_hex_differs_dash x :
  SHA256.is_hex x = true → Str.differs "-" x = true.
Proof.
  intros H. unfold Str.differs. destruct (Ascii.eqb_spec x "-") as [->|]; [|done].
  by vm_compute in H.
Qed.
End HexFacts.

(** ** Dictionaries *)

Section DictFacts.
Context {V : Type}.
Implicit Types (d : list (string * V)) (k : string) (v : V).

Lemma dict_get_set_eq d k v : Dict.get (Dict.set d k v) k = Some v.
Proof.
  induction d as [|[k' v'] d IH]; simpl.
  - by rewrite String.eqb_refl.
  - destruct (String.eqb k' k) eqn:E; simpl; rewrite E; auto.
Qed.

Lemma dict_get_set_ne d k k' v :
  k ≠ k' → Dict.get (Dict.set d k v) k' = Dict.get d k'.
Proof.
  intros Hne. induction d as [|[k0 v0] d IH]; simpl.
  - destruct (String.eqb_spec k k'); congruence.
  - destruct (String.eqb_spec k0 k) as [->|]; simpl.
    + destruct (String.eqb_spec k k'); congruence.
    + destruct (String.eqb_spec k0 k'); auto.
Qed.

Lemma dict_keys_set d k v k' :
  k' ∈ Dict.keys (Dict.set d k v) ↔ k' = k ∨ k' ∈ Dict.keys d.
Proof.
  unfold Dict.keys. induction d as [|[k0 v0] d IH]; simpl.
  - rewrite list_elem_of_singleton, elem_of_nil. tauto.
  - destruct (String.eqb_spec k0 k) as [->|]; simpl.
    + rewrite !elem_of_cons. tauto.
    + rewrite !elem_of_cons, IH. tauto.
Qed.

Lemma dict_get_keys d k v : Dict.get d k = Some v → k ∈ Dict.keys d.
Proof.
  unfold Dict.keys. induction d as [|[k0 v0] d IH]; simpl; [done|].
  destruct (String.eqb_spec k0 k) as [->|]; rewrite elem_of_cons; auto.
Qed.
End DictFacts.

(** ** roles.py: the role hierarchy *)

Lemma requester_level_other r : r ∉ builtin_roles → requester_level r = (-1)%Z.
Proof.
  unfold builtin_roles. intros H.
  unfold requester_level, Dict.get_default, role_levels. cbn [Dict.get].
  repeat match goal with
         | |- context [String.eqb ?a r] =>
             destruct (String.eqb_spec a r) as [<-|_];
             [exfalso; apply H; repeat constructor|]
         end.
  reflexivity.
Qed.

Lemma target_level_other t : t ∉ builtin_roles → target_level t = 0%Z.
Proof.
  unfold builtin_roles. intros H.
  unfold target_level, Dict.get_default, role_levels. cbn [Dict.get].
  repeat match goal with
         | |- context [String.eqb ?a t] =>
             destruct (String.eqb_spec a t) as [<-|_];
             [exfalso; apply H; repeat constructor|]
         end.
  reflexivity.
Qed.

Lemma target_level_nonneg t : (0 <= target_level t)%Z.
Proof.
  unfold target_level, Dict.get_default, role_levels. cbn [Dict.get].
  repeat (destruct (String.eqb _ t); [lia|]). lia.
Qed.

(** C10. [role_hierarchy_check] ranks public=0, internal=1, manager=2,
    admin=3, security=4, gives any other requester the level -1 and any
    other target the level 0, and answers true exactly when the requester's
    level is at least the target's; so a requester outside the five
    built-in roles is refused for every target. *)
Theorem role_hierarchy_check_spec :
  (requester_level <$> builtin_roles = [0; 1; 2; 3; 4]%Z) ∧
  (target_level <$> builtin_roles = [0; 1; 2; 3; 4]%Z) ∧
  (∀ r, r ∉ builtin_roles → requester_level r = (-1)%Z) ∧
  (∀ t, t ∉ builtin_roles → target_level t = 0%Z) ∧
  (∀ r t, role_hierarchy_check r t = true ↔ (requester_level r >= target_level t)%Z) ∧
  (∀ r t, r ∉ builtin_roles → role_hierarchy_check r t = false).
Proof.
  split; [reflexivity|]. split; [reflexivity|].
  split; [exact requester_level_other|]. split; [exact target_level_other|].
  split.
  - intros r t. unfold role_hierarchy_check. rewrite Z.geb_leb, Z.leb_le. lia.
  - intros r t Hr. unfold role_hierarchy_check. rewrite Z.geb_leb.
    rewrite (requester_level_other r Hr).
    pose proof (target_level_nonneg t). apply Z.leb_gt. lia.
Qed.

Lemma role_hierarchy_check_spec_witness :
  ("auditor" ∉ builtin_roles) ∧ role_hierarchy_check "auditor" "public" = false.
Proof.
  assert (H : "auditor" ∉ builtin_roles) by (apply (bool_decide_unpack _); vm_compute; exact I).
  split; [exact H|].
  exact (proj2 (proj2 (proj2 (proj2 (proj2 role_hierarchy_check_spec)))) "auditor" "public" H).
Defined.

(** ** tokenizer.py: minting and lookup *)

Section TokenizerFacts.
Implicit Types (tk : Tokenizer) (os : Entropy) (ty v t : string).

Lemma generate_token_known tk os ty v t :
  entity_tokens tk !! v = Some t → generate_token tk os ty v = (t, tk, os).
Proof. intros H. unfold generate_token. by rewrite H. Qed.

Lemma generate_token_lookup tk os ty v :
  entity_tokens (generate_token tk os ty v).1.2 !! v
  = Some (generate_token tk os ty v).1.1.
Proof.
  unfold generate_token. destruct (entity_tokens tk !! v) eqn:E; simpl; [done|].
  apply lookup_insert_eq.
Qed.

Lemma generate_token_mono tk os ty v v' t' :
  entity_tokens tk !! v' = Some t' →
  entity_tokens (generate_token tk os ty v).1.2 !! v' = Some t'.
Proof.
  intros H. unfold generate_token.
  destruct (entity_tokens tk !! v) eqn:E; simpl; [done|].
  rewrite lookup_insert_ne; [done|congruence].
Qed.

Lemma generate_token_prefix tk os ty v :
  token_prefix (generate_token tk os ty v).1.2 = token_prefix tk.
Proof. unfold generate_token. by destruct (entity_tokens tk !! v). Qed.

Lemma mint_all_cons tk os c calls :
  mint_all tk os (c :: calls) =
  let g := generate_token tk os c.1 c.2 in
  let r := mint_all g.1.2 g.2 calls in
  (g.1.1 :: r.1.1, r.1.2, r.2).
Proof.
  simpl. destruct (generate_token tk os c.1 c.2) as [[t tk1] os1]. simpl.
  by destruct (mint_all tk1 os1 calls) as [[ts tk2] os2].
Qed.

Lemma mint_all_mono calls : ∀ tk os v t,
  entity_tokens tk !! v = Some t →
  entity_tokens (mint_all tk os calls).1.2 !! v = Some t.
Proof.
  induction calls as [|c calls IH]; intros tk os v t H; [done|].
  rewrite mint_all_cons. cbn zeta. simpl. apply IH.
  by apply generate_token_mono.
Qed.

(** The token a call returns is the one the instance holds for that
    value from then on. *)
Lemma mint_all_lookup calls : ∀ tk os i ty v,
  calls !! i = Some (ty, v) →
  (mint_all tk os calls).1.1 !! i = entity_tokens (mint_all tk os calls).1.2 !! v.
Proof.
  induction calls as [|c calls IH]; intros tk os i ty v H; [done|].
  rewrite mint_all_cons. cbn zeta. simpl.
  destruct i as [|i]; simpl in *.
  - injection H as ->. simpl. symmetry. apply mint_all_mono.
    apply generate_token_lookup.
  - eapply IH, H.
Qed.

Lemma mint_all_is_Some calls tk os i ty v :
  calls !! i = Some (ty, v) → is_Some ((mint_all tk os calls).1.1 !! i).
Proof.
  revert tk os i. induction calls as [|c calls IH]; intros tk os i H; [done|].
  rewrite mint_all_cons. cbn zeta. simpl.
  destruct i as [|i]; simpl in *; [by eexists|]. by eapply IH.
Qed.
End TokenizerFacts.

(** C5. Within one instance a value is given one token: whenever two calls
    of a sequence pass the same value, whatever entity types they pass,
    both return the same token string. *)
Theorem generate_token_reuses_by_value
    (tk : Tokenizer) (os : Entropy) (calls : list (string * string))
    (i j : nat) (ty1 ty2 v : string) :
  calls !! i = Some (ty1, v) →
  calls !! j = Some (ty2, v) →
  ∃ t, (mint_all tk os calls).1.1 !! i = Some t ∧
       (mint_all tk os calls).1.1 !! j = Some t.
Proof.
  intros Hi Hj.
  destruct (mint_all_is_Some calls tk os i ty1 v Hi) as [t Ht].
  exists t. split; [done|].
  rewrite (mint_all_lookup calls tk os j ty2 v Hj).
  by rewrite <- (mint_all_lookup calls tk os i ty1 v Hi).
Qed.

Lemma generate_token_reuses_by_value_witness :
  ∃ t, (mint_all Tokenizer_init (entropy_of ["0123456789abcdef"; "fedcba9876543210"])
          [("email", "a@b.co"); ("phone", "555-123-4567"); ("secret", "a@b.co")]).1.1
         !! 0%nat = Some t ∧
       (mint_all Tokenizer_init (entropy_of ["0123456789abcdef"; "fedcba9876543210"])
          [("email", "a@b.co"); ("phone", "555-123-4567"); ("secret", "a@b.co")]).1.1
         !! 2%nat = Some t.
Proof.
  apply (generate_token_reuses_by_value _ _ _ 0 2 "email" "secret" "a@b.co");
    reflexivity.
Defined.

(** ** tokenizer.py: what a token records *)

Lemma minted_as_app hist calls v :
  minted_as (hist ++ calls) v =
  match minted_as hist v with Some ty => Some ty | None => minted_as calls v end.
Proof.
  induction hist as [|c hist IH]; simpl; [done|].
  by destruct (String.eqb c.2 v).
Qed.

Lemma tokens_distinct_injective tk : tokens_distinct tk → injective_tokens tk.
Proof.
  unfold tokens_distinct, injective_tokens. intros Hnd v1 v2 t H1 H2.
  apply elem_of_map_to_list in H1, H2.
  revert Hnd H1 H2. generalize (map_to_list (entity_tokens tk)).
  induction l as [|[k x] l IH]; intros Hnd H1 H2.
  - by apply elem_of_nil in H1.
  - apply NoDup_cons in Hnd as [Hx Hnd]. simpl in Hx.
    apply elem_of_cons in H1 as [H1|H1], H2 as [H2|H2].
    + congruence.
    + injection H1 as -> ->. exfalso. apply Hx.
      apply list_elem_of_fmap. by exists (v2, x).
    + injection H2 as -> ->. exfalso. apply Hx.
      apply list_elem_of_fmap. by exists (v1, x).
    + by apply IH.
Qed.

Lemma injective_tokens_mint_all calls tk os :
  injective_tokens (mint_all tk os calls).1.2 → injective_tokens tk.
Proof.
  intros Hinj v1 v2 t H1 H2.
  eapply Hinj; apply mint_all_mono; eassumption.
Qed.

Lemma records_new prefix : records (Tokenizer_new prefix) [].
Proof. split; [done|]. intros v t H. simpl in H. by rewrite lookup_empty in H. Qed.

(** One call keeps the tables in step with the history, as long as the
    token it returns is not the token of another value. *)
Lemma records_generate_token tk os hist ty v :
  records tk hist →
  injective_tokens (generate_token tk os ty v).1.2 →
  records (generate_token tk os ty v).1.2 (hist ++ [(ty, v)]).
Proof.
  intros [Ha Hb]. unfold generate_token.
  destruct (entity_tokens tk !! v) as [t0|] eqn:E; simpl; intros Hinj.
  - split.
    + intros v' Hv'. rewrite minted_as_app, (Ha v' Hv'). simpl.
      destruct (String.eqb_spec v v'); [congruence|done].
    + intros v' t' Hv'. destruct (Hb v' t' Hv') as (ty0 & Hm & Ht).
      exists ty0. by rewrite minted_as_app, Hm.
  - set (tok := make_token _ _ _) in *. split.
    + intros v' Hv'. simpl in Hv'. apply lookup_insert_None in Hv' as [Hv' Hne].
      rewrite minted_as_app, (Ha v' Hv'). simpl.
      destruct (String.eqb_spec v v'); [congruence|done].
    + intros v' t' Hv'. simpl in Hv' |- *. destruct (decide (v = v')) as [<-|Hne].
      * rewrite lookup_insert_eq in Hv'. injection Hv' as <-.
        exists ty. rewrite minted_as_app, (Ha v E). simpl.
        rewrite String.eqb_refl. split; [done|]. apply lookup_insert_eq.
      * assert (tok ≠ t') as Htok.
        { intros <-. apply Hne. eapply (Hinj v v' tok); simpl; [|done].
          apply lookup_insert_eq. }
        rewrite lookup_insert_ne in Hv' by done.
        destruct (Hb v' t' Hv') as (ty0 & Hm & Ht).
        exists ty0. rewrite minted_as_app, Hm. split; [done|].
        by rewrite lookup_insert_ne.
Qed.

Lemma records_mint_all calls : ∀ tk os hist,
  records tk hist →
  injective_tokens (mint_all tk os calls).1.2 →
  records (mint_all tk os calls).1.2 (hist ++ calls).
Proof.
  induction calls as [|c calls IH]; intros tk os hist Hrec Hinj.
  - by rewrite app_nil_r.
  - rewrite mint_all_cons in *. cbn zeta in *. simpl in *.
    replace (hist ++ c :: calls)%list with ((hist ++ [c]) ++ calls)%list
      by (by rewrite <- app_assoc).
    apply IH; [|done]. destruct c as [ty v].
    apply records_generate_token; [done|].
    by eapply injective_tokens_mint_all.
Qed.

(** C4, amended.  On an instance that started empty, a token returned by
    [generate_token(ty, v)] always resolves to the value [v], and to the
    entity type of the first call that passed [v], which is [ty] when no
    earlier call passed [v]; this for every sequence of calls in which
    different values received different token strings. *)
Theorem minted_token_records_first_mint
    (prefix : string) (os : Entropy) (calls : list (string * string))
    (i : nat) (ty v : string) :
  calls !! i = Some (ty, v) →
  tokens_distinct (mint_all (Tokenizer_new prefix) os calls).1.2 →
  ∃ t ty0,
    (mint_all (Tokenizer_new prefix) os calls).1.1 !! i = Some t ∧
    minted_as calls v = Some ty0 ∧
    get_original_value (mint_all (Tokenizer_new prefix) os calls).1.2 t = v ∧
    get_entity_type_from_token (mint_all (Tokenizer_new prefix) os calls).1.2 t = ty0 ∧
    (minted_as (take i calls) v = None → ty0 = ty).
Proof.
  intros Hi Hnd.
  destruct (mint_all_is_Some calls (Tokenizer_new prefix) os i ty v Hi) as [t Ht].
  pose proof (records_mint_all calls (Tokenizer_new prefix) os []
                (records_new prefix) (tokens_distinct_injective _ Hnd)) as [_ Hb].
  simpl in Hb.
  rewrite (mint_all_lookup calls _ os i ty v Hi) in Ht.
  destruct (Hb v t Ht) as (ty0 & Hm & Hte).
  exists t, ty0. rewrite (mint_all_lookup calls _ os i ty v Hi).
  unfold get_original_value, get_entity_type_from_token. rewrite Hte. simpl.
  repeat split; try done.
  intros Hnone.
  rewrite <- (take_drop_middle calls i (ty, v) Hi) in Hm.
  rewrite minted_as_app, Hnone in Hm. simpl in Hm.
  rewrite String.eqb_refl in Hm. congruence.
Qed.

Lemma minted_token_records_first_mint_witness :
  ∃ t ty0,
    (mint_all (Tokenizer_new "TOKEN_") (entropy_of ["0123456789abcdef"; "fedcba9876543210"])
       [("email", "a@b.co"); ("phone", "555-123-4567"); ("secret", "a@b.co")]).1.1
      !! 2%nat = Some t ∧
    minted_as [("email", "a@b.co"); ("phone", "555-123-4567"); ("secret", "a@b.co")]
      "a@b.co" = Some ty0 ∧
    get_original_value
      (mint_all (Tokenizer_new "TOKEN_") (entropy_of ["0123456789abcdef"; "fedcba9876543210"])
         [("email", "a@b.co"); ("phone", "555-123-4567"); ("secret", "a@b.co")]).1.2 t
      = "a@b.co" ∧
    get_entity_type_from_token
      (mint_all (Tokenizer_new "TOKEN_") (entropy_of ["0123456789abcdef"; "fedcba9876543210"])
         [("email", "a@b.co"); ("phone", "555-123-4567"); ("secret", "a@b.co")]).1.2 t
      = ty0 ∧
    (minted_as (take 2 [("email", "a@b.co"); ("phone", "555-123-4567"); ("secret", "a@b.co")])
       "a@b.co" = None → ty0 = "secret").
Proof.
  apply (minted_token_records_first_mint "TOKEN_" _ _ 2 "secret" "a@b.co").
  - reflexivity.
  - apply (bool_decide_unpack _). vm_compute. exact I.
Defined.

(** C4 as stated fails: the second call passes the type phone, and the
    token it returns is recorded with the type email. *)
Lemma minted_token_type_counterexample :
  let r := mint_all Tokenizer_init (entropy_of ["0123456789abcdef"])
             [("email", "x"); ("phone", "x")] in
  r.1.1 = ["TOKEN_EMAIL_ef4ba4285d0a"; "TOKEN_EMAIL_ef4ba4285d0a"] ∧
  get_entity_type_from_token r.1.2 "TOKEN_EMAIL_ef4ba4285d0a" = "email" ∧
  get_entity_type_from_token r.1.2 "TOKEN_EMAIL_ef4ba4285d0a" ≠ "phone".
Proof. vm_compute. repeat split; discriminate. Qed.

(** Why the amended statement asks for distinct token strings: the
    truncated digests of two values can coincide, and the second mint then
    takes over the record of the token the first one was given. *)
Example colliding_draws_overwrite_record :
  let r := mint_all Tokenizer_init (entropy_of ["000000000035a1d1"; "0000010005764975"])
             [("email", "a@b.co"); ("email", "c@d.org")] in
  r.1.1 = ["TOKEN_EMAIL_df855f055d88"; "TOKEN_EMAIL_df855f055d88"] ∧
  get_original_value r.1.2 "TOKEN_EMAIL_df855f055d88" = "c@d.org".
Proof. vm_compute. split; reflexivity. Qed.

(** ** tokenizer.py: the entity type read back from the token string *)

(** C2 fails for the built-in type credit_card: the token minted for it is
    resolved to its type by the instance that minted it, but an instance
    that does not hold the token, a new one or the same one after
    [clear_tokens], answers credit. *)
Theorem credit_card_type_not_recovered (os : Entropy) (v : string) :
  let '(t, tk, _) := generate_token Tokenizer_init os "credit_card" v in
  get_entity_type_from_token tk t = "credit_card" ∧
  get_entity_type_from_token Tokenizer_init t = "credit" ∧
  get_entity_type_from_token (clear_tokens tk) t = "credit".
Proof.
  unfold generate_token. simpl entity_tokens. rewrite lookup_empty.
  unfold token_hex. unfold get_entity_type_from_token. simpl token_entities.
  rewrite lookup_insert_eq, lookup_empty.
  generalize (entity_hash "credit_card" v (hex_values os (drawn os))). intros h.
  repeat split.
Qed.

(** The same for ip_address, whose token is read back as ip. *)
Lemma ip_address_type_not_recovered (os : Entropy) (v : string) :
  get_entity_type_from_token Tokenizer_init
    (generate_token Tokenizer_init os "ip_address" v).1.1 = "ip".
Proof.
  unfold generate_token. simpl entity_tokens. rewrite lookup_empty.
  unfold token_hex. unfold get_entity_type_from_token. simpl token_entities.
  rewrite lookup_empty.
  generalize (entity_hash "ip_address" v (hex_values os (drawn os))). intros h.
  reflexivity.
Qed.

Lemma startswith_app p x : Str.startswith p (p +:+ x) = true.
Proof. induction p as [|c p IH]; simpl; [done|]. by rewrite Ascii.eqb_refl. Qed.

Lemma drop_app p x : Str.drop (String.length p) (p +:+ x) = x.
Proof. by induction p as [|c p IH]. Qed.

Lemma app_snoc cur c a : (cur +:+ String c "") +:+ a = cur +:+ String c a.
Proof.
  induction cur as [|x cur IH]; [done|]. exact (f_equal (String x) IH).
Qed.

Lemma app_empty_r s : s +:+ "" = s.
Proof. induction s as [|x s IH]; [done|]. exact (f_equal (String x) IH). Qed.

Lemma split_go_first sep rest : ∀ a cur,
  Str.all (Str.differs sep) a = true →
  Str.split_go sep cur (a +:+ String sep rest)
  = (cur +:+ a) :: Str.split_go sep "" rest.
Proof.
  induction a as [|c a IH]; intros cur Ha.
  - change ("" +:+ String sep rest) with (String sep rest).
    cbn [Str.split_go]. by rewrite Ascii.eqb_refl, app_empty_r.
  - change (String c a +:+ String sep rest) with (String c (a +:+ String sep rest)).
    cbn [Str.split_go Str.all] in *. apply andb_true_iff in Ha as [Hc Ha].
    unfold Str.differs in Hc. apply negb_true_iff in Hc. rewrite Hc.
    by rewrite IH, app_snoc.
Qed.

Lemma split_go_nonempty sep s : ∀ cur, (1 ≤ length (Str.split_go sep cur s))%nat.
Proof.
  induction s as [|c s IH]; intros cur; simpl; [lia|].
  destruct (Ascii.eqb c sep); simpl; [lia|apply IH].
Qed.





(** A character outside [plain_type_char] that is neither the delimiter
    nor an upper-case letter: the upper case of U+00DF is SS, so a type
    made of that letter is minted under SS and read back as ss. *)
Example sharp_s_type_not_recovered (os : Entropy) (v : string) :
  let '(t, tk, _) := generate_token Tokenizer_init os (String "223" "") v in
  Str.take 9 t = "TOKEN_SS_" ∧
  get_entity_type_from_token tk t = String "223" "" ∧
  get_entity_type_from_token Tokenizer_init t = "ss".
Proof.
  unfold generate_token. simpl entity_tokens. rewrite lookup_empty.
  unfold token_hex. unfold get_entity_type_from_token. simpl token_entities.
  rewrite lookup_insert_eq, lookup_empty.
  generalize (entity_hash (String "223" "") v (hex_values os (drawn os))). intros h.
  split; [reflexivity|]. split; [reflexivity|].
  pose proof (split_go_nonempty "_" h "") as Hlen.
  change (make_token (token_prefix Tokenizer_init) (String "223" "") h)
    with ("TOKEN_" +:+ "SS" +:+ String "_" h).
  change (token_prefix Tokenizer_init) with "TOKEN_".
  rewrite startswith_app, drop_app. unfold Str.split.
  rewrite (split_go_first "_" h "SS" "") by reflexivity.
  cbn [length Nat.leb]. destruct (length (Str.split_go "_" "" h)); [lia|reflexivity].
Qed.

(** What the lost type costs: a map written by one process and restored
    by another for the role security leaves the credit card token in the
    text, while the instance that minted it restores the number. *)
Example stateless_restore_keeps_credit_card_token :
  let r := redact_document canonical_runtime SafeDisclosure_init
             (entropy_of ["0123456789abcdef"])
             "card 4111 1111 1111 1111" "public" None in
  r.1.1 = ("card TOKEN_CREDIT_CARD_d7ecbd12b347",
           [("TOKEN_CREDIT_CARD_d7ecbd12b347", "4111 1111 1111 1111")]) ∧
  restore_document r.1.2 r.1.1.1 r.1.1.2 "security" = "card 4111 1111 1111 1111" ∧
  restore_document SafeDisclosure_init r.1.1.1 r.1.1.2 "security"
  = "card TOKEN_CREDIT_CARD_d7ecbd12b347".
Proof. vm_compute. repeat split. Qed.

(** ** core.py: detection *)

Lemma find_pattern_keys text pats : ∀ found k,
  k ∈ Dict.keys (fold_left (find_pattern text) pats found) →
  k ∈ Dict.keys found ∨ k ∈ Dict.keys pats.
Proof.
  induction pats as [|[ty pat] pats IH]; intros found k H; simpl in *; [by left|].
  apply IH in H as [H|H]; [|right; unfold Dict.keys in *; simpl; by right].
  unfold find_pattern in H. simpl in H. case_bool_decide; [by left|].
  apply dict_keys_set in H as [->|H]; [|by left].
  right. unfold Dict.keys. simpl. by left.
Qed.

Lemma find_entities_no_custom_keys sd text k :
  k ∈ Dict.keys (_find_entities sd text None) → k ∈ Dict.keys (entity_patterns sd).
Proof.
  unfold _find_entities. intros H.
  apply find_pattern_keys in H as [H|H]; [|done]. by apply elem_of_nil in H.
Qed.

(** C7. Detection reads nothing but the text, the pattern registry and the
    custom entities: two calls that agree on these return equal results,
    whatever happened to the instance in between, and so the same set of
    values for every entity type. *)
Theorem find_entities_deterministic
    (sd1 sd2 : SafeDisclosure) (text : string)
    (custom : option (list (string * list string))) :
  entity_patterns sd1 = entity_patterns sd2 →
  _find_entities sd1 text custom = _find_entities sd2 text custom ∧
  ∀ ty, Dict.get (_find_entities sd1 text custom) ty
        = Dict.get (_find_entities sd2 text custom) ty.
Proof.
  intros H. unfold _find_entities. rewrite H. split; [reflexivity|]. intros ty. reflexivity.
Qed.

Lemma find_entities_deterministic_witness :
  _find_entities SafeDisclosure_init "mail a@b.co" None
  = _find_entities
      (redact_document canonical_runtime SafeDisclosure_init
         (entropy_of ["0123456789abcdef"]) "call 555-123-4567" "public" None).1.2
      "mail a@b.co" None ∧
  ∀ ty, Dict.get (_find_entities SafeDisclosure_init "mail a@b.co" None) ty
        = Dict.get
            (_find_entities
               (redact_document canonical_runtime SafeDisclosure_init
                  (entropy_of ["0123456789abcdef"]) "call 555-123-4567" "public" None).1.2
               "mail a@b.co" None) ty.
Proof. apply find_entities_deterministic. reflexivity. Defined.

(** ** core.py: redaction *)

Lemma redact_types_all_allowed rt allowed found st :
  (∀ e, e ∈ found → e.1 ∈ allowed) →
  fold_left (redact_type rt allowed) found st = st.
Proof.
  revert st. induction found as [|e found IH]; intros st H; simpl; [done|].
  unfold redact_type at 2. rewrite bool_decide_eq_true_2 by (apply H; by left).
  apply IH. intros e' He'. apply H. by right.
Qed.

Lemma security_allowed :
  get_allowed_entities RoleManager_init "security"
  = list_to_set ["name"; "email"; "phone"; "ip_address"; "ssn"; "credit_card"].
Proof. reflexivity. Qed.

Lemma default_patterns_visible_to_security k :
  k ∈ Dict.keys _load_default_patterns →
  k ∈ get_allowed_entities RoleManager_init "security".
Proof.
  rewrite security_allowed. intros H. apply elem_of_list_to_set.
  unfold Dict.keys, _load_default_patterns in H. simpl in H.
  rewrite !elem_of_cons, elem_of_nil in *. tauto.
Qed.

Lemma redact_for_security rt tk os text :
  redact_loop rt (default_instance tk) os text "security" None
  = {| r_tokenizer := tk; r_entropy := os; redacted_text := text; token_mapping := [] |}.
Proof.
  unfold redact_loop. apply redact_types_all_allowed.
  intros [ty matches] He. simpl.
  apply default_patterns_visible_to_security.
  apply (find_entities_no_custom_keys (default_instance tk) text).
  unfold Dict.keys. apply list_elem_of_fmap. by exists (ty, matches).
Qed.

(** C1. With the default patterns and roles and no custom entities,
    redacting a text for the role security and restoring the result with
    the returned token map for the role security gives back the text. *)
Theorem security_round_trip
    (rt : Runtime) (tk : Tokenizer) (os : Entropy) (text : string) :
  let '((redacted, mapping), sd', _) :=
    redact_document rt (default_instance tk) os text "security" None in
  restore_document sd' redacted mapping "security" = text.
Proof.
  unfold redact_document. rewrite redact_for_security. simpl.
  unfold restore_document. by destruct (negb _).
Qed.

Section Tokenized.
Implicit Types (st : Redaction) (v ty : string).







End Tokenized.

Section Substituted.
Implicit Types (st : Redaction) (tokens : gmap string string).







End Substituted.



(** The scenario text redacted for a role that does not exist: the email
    address, the phone number and the name are all replaced. *)
Example unknown_role_scenario_run :
  (redact_document canonical_runtime SafeDisclosure_init
     (entropy_of ["0123456789abcdef"; "fedcba9876543210"; "0011223344556677"])
     scenario_text "nonexistent-role" None).1.1
  = ("TOKEN_NAME_b26b8f67fea8 Doe, email TOKEN_EMAIL_59fbe04b8856, phone TOKEN_PHONE_425392fcffec.",
     [("TOKEN_EMAIL_59fbe04b8856", "john.doe@example.com");
      ("TOKEN_PHONE_425392fcffec", "555-123-4567");
      ("TOKEN_NAME_b26b8f67fea8", "Hello John")]).
Proof. vm_compute. reflexivity. Qed.

(** ** core.py: the end-to-end scenario *)

Lemma set_iter_singleton rt (x : string) : set_iter rt {[x]} = [x].
Proof.
  apply Permutation_singleton_r. rewrite (set_iter_perm rt {[x]}).
  by rewrite elements_singleton.
Qed.

(** A value the tokenizer has not seen gets a token made from the next
    draw of the entropy source. *)
Lemma redact_match_fresh ty st v :
  entity_tokens (r_tokenizer st) !! v = None →
  redact_match ty st v =
  let token :=
    make_token (token_prefix (r_tokenizer st)) ty
      (entity_hash ty v (hex_values (r_entropy st) (drawn (r_entropy st)))) in
  {| r_tokenizer :=
       {| token_prefix := token_prefix (r_tokenizer st);
          token_counter := token_counter (r_tokenizer st);
          entity_tokens := <[v := token]> (entity_tokens (r_tokenizer st));
          token_entities := <[token := (ty, v)]> (token_entities (r_tokenizer st)) |};
     r_entropy := (token_hex (r_entropy st)).2;
     redacted_text := Str.replace v token (redacted_text st);
     token_mapping := Dict.set (token_mapping st) token v |}.
Proof. intros H. unfold redact_match, generate_token. by rewrite H. Qed.

Lemma scenario_detected :
  _find_entities SafeDisclosure_init scenario_text None
  = [("email", {["john.doe@example.com"]}); ("phone", {["555-123-4567"]});
     ("name", {["Hello John"]})].
Proof. vm_compute. reflexivity. Qed.

Lemma internal_allowed :
  get_allowed_entities RoleManager_init "internal" = list_to_set ["name"].
Proof. reflexivity. Qed.

Lemma replace_email tok :
  Str.replace "john.doe@example.com" tok scenario_text
  = "Hello John Doe, email " +:+ tok +:+ ", phone 555-123-4567.".
Proof. reflexivity. Qed.

(** The phone number is replaced where it stands and nowhere inside the
    e-mail token, whose suffix has no dash. *)
Lemma replace_phone h tok :
  Str.all SHA256.is_hex h = true →
  Str.replace "555-123-4567" tok
    ("Hello John Doe, email " +:+ ("TOKEN_EMAIL_" +:+ h) +:+ ", phone 555-123-4567.")
  = "Hello John Doe, email " +:+ ("TOKEN_EMAIL_" +:+ h) +:+ ", phone " +:+ tok +:+ ".".
Proof.
  intros Hh.
  change (Str.replace "555-123-4567" tok ?s)
    with (Str.replace_from "555-123-4567" tok 0 s).
  change ("Hello John Doe, email " +:+ ("TOKEN_EMAIL_" +:+ h) +:+ ", phone 555-123-4567.")
    with (("Hello John Doe, email TOKEN_EMAIL_" +:+ h) +:+ ", phone 555-123-4567.").
  rewrite (replace_from_past "555-123-4567" tok "-" 3);
    [reflexivity|reflexivity|reflexivity|].
  rewrite all_app. apply andb_true_iff. split; [reflexivity|].
  eapply all_impl, Hh. apply is_hex_differs_dash.
Qed.

(** C6. A new instance with the default patterns and roles redacts the
    scenario text for the role internal into the same text with a token
    TOKEN_EMAIL_.. where the e-mail address was and a token TOKEN_PHONE_..
    where the phone number was, John Doe still in it, and returns a map of
    exactly these two tokens; this whatever the random draws and the
    iteration order of sets. *)
Theorem internal_scenario (rt : Runtime) (os : Entropy) :
  let '((redacted, mapping), _, _) :=
    redact_document rt SafeDisclosure_init os scenario_text "internal" None in
  ∃ h1 h2,
    Str.all SHA256.is_hex h1 = true ∧ Str.all SHA256.is_hex h2 = true ∧
    redacted = "Hello John Doe, email TOKEN_EMAIL_" +:+ h1 +:+
               ", phone TOKEN_PHONE_" +:+ h2 +:+ "." ∧
    mapping = [("TOKEN_EMAIL_" +:+ h1, "john.doe@example.com");
               ("TOKEN_PHONE_" +:+ h2, "555-123-4567")] ∧
    Str.contains "John Doe" redacted = true ∧
    length mapping = 2%nat.
Proof.
  unfold redact_document, redact_loop.
  rewrite scenario_detected.
  change (role_manager SafeDisclosure_init) with RoleManager_init.
  rewrite internal_allowed.
  cbn [fold_left]. unfold redact_type. cbn [fst snd].
  rewrite !set_iter_singleton.
  rewrite (bool_decide_eq_false_2 ("email" ∈ _)),
          (bool_decide_eq_false_2 ("phone" ∈ _)),
          (bool_decide_eq_true_2 ("name" ∈ _)).
  2-4: rewrite elem_of_list_to_set, list_elem_of_singleton; done.
  cbn [fold_left].
  rewrite (redact_match_fresh "email") by done. cbn zeta.
  rewrite (redact_match_fresh "phone") by done. cbn zeta.
  cbn [r_tokenizer r_entropy redacted_text token_mapping token_prefix token_hex snd
       hex_values drawn tokenizer SafeDisclosure_init Tokenizer_init Tokenizer_new].
  set (h1 := entity_hash "email" _ _). set (h2 := entity_hash "phone" _ _).
  exists h1, h2.
  split; [apply entity_hash_is_hex|]. split; [apply entity_hash_is_hex|].
  change (make_token "TOKEN_" "email" h1) with ("TOKEN_EMAIL_" +:+ h1).
  change (make_token "TOKEN_" "phone" h2) with ("TOKEN_PHONE_" +:+ h2).
  rewrite replace_email, replace_phone by apply entity_hash_is_hex.
  clearbody h1 h2.
  repeat split.
Qed.

(** One run of the scenario, with the two draws fixed. *)
Example internal_scenario_run :
  (redact_document canonical_runtime SafeDisclosure_init
     (entropy_of ["0123456789abcdef"; "fedcba9876543210"])
     scenario_text "internal" None).1.1
  = ("Hello John Doe, email TOKEN_EMAIL_59fbe04b8856, phone TOKEN_PHONE_425392fcffec.",
     [("TOKEN_EMAIL_59fbe04b8856", "john.doe@example.com");
      ("TOKEN_PHONE_425392fcffec", "555-123-4567")]).
Proof. vm_compute. reflexivity. Qed.

(** ** core.py: the empty string as a custom entity *)

Lemma contains_empty text : Str.contains "" text = true.
Proof. by destruct text. Qed.

Lemma found_custom_elem text l e :
  e ∈ l → Str.contains e text = true → e ∈ found_custom text l.
Proof.
  unfold found_custom. generalize (∅ : gset string).
  induction l as [|x l IH]; intros acc He Hc; simpl.
  - by apply elem_of_nil in He.
  - apply elem_of_cons in He as [<-|He]; [|by apply IH].
    rewrite Hc. clear IH.
    assert (e ∈ acc ∪ {[e]}) as Hin by set_solver.
    revert Hin. generalize (acc ∪ {[e]}). clear.
    induction l as [|y l IH]; intros acc Hin; simpl; [done|].
    apply IH. destruct (Str.contains y text); set_solver.
Qed.

Lemma find_custom_keeps text found entry T v :
  (∃ S, Dict.get found T = Some S ∧ v ∈ S) →
  ∃ S, Dict.get (find_custom text found entry) T = Some S ∧ v ∈ S.
Proof.
  intros (S & Hget & Hv). unfold find_custom. case_bool_decide; [by exists S|].
  destruct (decide (entry.1 = T)) as [->|Hne].
  - rewrite dict_get_set_eq. eexists. split; [done|].
    unfold Dict.get_default. rewrite Hget. set_solver.
  - rewrite dict_get_set_ne by done. by exists S.
Qed.

Lemma find_custom_adds text found T l v :
  v ∈ found_custom text l →
  ∃ S, Dict.get (find_custom text found (T, l)) T = Some S ∧ v ∈ S.
Proof.
  intros Hv. unfold find_custom. simpl. case_bool_decide as Hempty.
  - rewrite Hempty in Hv. by apply not_elem_of_empty in Hv.
  - rewrite dict_get_set_eq. eexists. split; [done|]. set_solver.
Qed.

Lemma find_customs_detect text custom : ∀ found T l v,
  (T, l) ∈ custom → v ∈ l → Str.contains v text = true →
  ∃ S, Dict.get (fold_left (find_custom text) custom found) T = Some S ∧ v ∈ S.
Proof.
  induction custom as [|e custom IH]; intros found T l v He Hv Hc.
  - by apply elem_of_nil in He.
  - simpl. apply elem_of_cons in He as [<-|He]; [|by eapply IH].
    assert (∃ S, Dict.get (find_custom text found (T, l)) T = Some S ∧ v ∈ S) as H
      by (by apply find_custom_adds, found_custom_elem).
    revert H. generalize (find_custom text found (T, l)). clear.
    induction custom as [|e custom IH]; intros found H; simpl; [done|].
    by apply IH, find_custom_keeps.
Qed.

Lemma redact_types_filter rt allowed found : ∀ st,
  fold_left (redact_type rt allowed) found st
  = fold_left (redact_type rt allowed) (withheld allowed found) st.
Proof.
  unfold withheld. induction found as [|e found IH]; intros st; [done|].
  rewrite filter_cons. destruct (decide (e.1 ∉ allowed)) as [Hn|Hy]; simpl.
  - apply IH.
  - rewrite <- IH. unfold redact_type at 2.
    rewrite bool_decide_eq_true_2; [done|]. by apply dec_stable.
Qed.

Lemma length_app (a b : string) :
  String.length (a +:+ b) = (String.length a + String.length b)%nat.
Proof. induction a as [|x a IH]; simpl; [done|]. by rewrite IH. Qed.

Lemma length_interleave new s :
  String.length (Str.interleave new s)
  = (String.length s + (String.length s + 1) * String.length new)%nat.
Proof.
  induction s as [|x s IH]; simpl; [lia|].
  rewrite length_app. simpl. rewrite IH. lia.
Qed.

(** C9, amended.  A custom entity type whose list holds the empty string
    always has the empty string among its detected values.  When it is the
    only detected value of a type outside the role's allowed set, the
    redacted text is the text with the token of the empty string before
    each character and after the last one, length(text)+1 insertions, and
    the map has that one entry. *)
Theorem empty_custom_entity
    (rt : Runtime) (sd : SafeDisclosure) (os : Entropy) (text role : string)
    (custom : list (string * list string)) (T : string) (l : list string) :
  (T, l) ∈ custom → "" ∈ l →
  (∃ S, Dict.get (_find_entities sd text (Some custom)) T = Some S ∧ "" ∈ S) ∧
  (withheld (get_allowed_entities (role_manager sd) role)
     (_find_entities sd text (Some custom)) = [(T, {[""]})] →
   ∃ token,
     entity_tokens (tokenizer (redact_document rt sd os text role (Some custom)).1.2)
       !! "" = Some token ∧
     (redact_document rt sd os text role (Some custom)).1.1.1
       = Str.interleave token text ∧
     (redact_document rt sd os text role (Some custom)).1.1.2 = [(token, "")] ∧
     String.length (redact_document rt sd os text role (Some custom)).1.1.1
       = (String.length text + (String.length text + 1) * String.length token)%nat).
Proof.
  intros HT Hl. split.
  - unfold _find_entities. destruct custom as [|e custom]; [by apply elem_of_nil in HT|].
    eapply find_customs_detect; [done..|apply contains_empty].
  - intros Hfilter.
    assert (T ∉ get_allowed_entities (role_manager sd) role) as Hnot.
    { assert ((T, ({[""]} : gset string)) ∈
              withheld (get_allowed_entities (role_manager sd) role)
                (_find_entities sd text (Some custom))) as Hin
        by (rewrite Hfilter; by left).
      by apply list_elem_of_filter in Hin as [Hin _]. }
    unfold redact_document, redact_loop. cbn [fst snd tokenizer].
    rewrite redact_types_filter, Hfilter. cbn [fold_left].
    unfold redact_type. cbn [fst snd]. rewrite bool_decide_eq_false_2 by done.
    rewrite set_iter_singleton. cbn [fold_left].
    unfold redact_match. cbn [r_tokenizer r_entropy redacted_text token_mapping].
    pose proof (generate_token_lookup (tokenizer sd) os T "") as Hlook.
    destruct (generate_token (tokenizer sd) os T "") as [[token tk] os'].
    exists token. cbn [r_tokenizer redacted_text token_mapping Dict.set].
    split; [exact Hlook|]. split; [reflexivity|]. split; [reflexivity|].
    apply length_interleave.
Qed.

Lemma empty_custom_entity_witness :
  (∃ S, Dict.get (_find_entities SafeDisclosure_init "ab" (Some [("t", [""])])) "t"
        = Some S ∧ "" ∈ S) ∧
  ∃ token,
    entity_tokens
      (tokenizer
         (redact_document canonical_runtime SafeDisclosure_init
            (entropy_of ["0123456789abcdef"]) "ab" "public" (Some [("t", [""])])).1.2)
      !! "" = Some token ∧
    (redact_document canonical_runtime SafeDisclosure_init
       (entropy_of ["0123456789abcdef"]) "ab" "public" (Some [("t", [""])])).1.1.1
      = Str.interleave token "ab" ∧
    (redact_document canonical_runtime SafeDisclosure_init
       (entropy_of ["0123456789abcdef"]) "ab" "public" (Some [("t", [""])])).1.1.2
      = [(token, "")] ∧
    String.length
      (redact_document canonical_runtime SafeDisclosure_init
         (entropy_of ["0123456789abcdef"]) "ab" "public" (Some [("t", [""])])).1.1.1
      = (String.length "ab" + (String.length "ab" + 1) * String.length token)%nat.
Proof.
  destruct (empty_custom_entity canonical_runtime SafeDisclosure_init
              (entropy_of ["0123456789abcdef"]) "ab" "public" [("t", [""])] "t" [""])
    as [H1 H2].
  - apply (bool_decide_unpack _). vm_compute. exact I.
  - apply (bool_decide_unpack _). vm_compute. exact I.
  - split; [exact H1|]. apply H2. vm_compute. reflexivity.
Defined.

(** C9 as stated fails: the e-mail address is replaced first, and the
    token of the empty string then goes to the 25 boundaries of the
    24-character e-mail token, not to the 7 boundaries of the text. *)
Lemma empty_custom_entity_counterexample :
  let r := redact_document canonical_runtime SafeDisclosure_init
             (entropy_of ["0123456789abcdef"; "fedcba9876543210"])
             "a@b.co" "public" (Some [("t", [""])]) in
  ("t" ∉ get_allowed_entities RoleManager_init "public") ∧
  (∃ S, Dict.get (_find_entities SafeDisclosure_init "a@b.co" (Some [("t", [""])])) "t"
        = Some S ∧ "" ∈ S) ∧
  entity_tokens (tokenizer r.1.2) !! "" = Some "TOKEN_T_067d7cc86e77" ∧
  Str.count "TOKEN_T_067d7cc86e77" r.1.1.1 = 25%nat ∧
  S (String.length "a@b.co") = 7%nat ∧
  r.1.1.1 ≠ Str.interleave "TOKEN_T_067d7cc86e77" "a@b.co".
Proof.
  cbv zeta. split; [apply (bool_decide_unpack _); vm_compute; exact I|].
  split.
  { exists {[""]}. split; [vm_compute; reflexivity|]. by apply elem_of_singleton. }
  split; [vm_compute; reflexivity|].
  split; [vm_compute; reflexivity|].
  split; [reflexivity|].
  vm_compute. discriminate.
Qed.
(** * Further properties *)

(** ** The length of the digest *)

Section DigestLength.

Lemma round_length st k : length (SHA256.round st k).1 = 8%nat.
Proof. by destruct st as [v w]. Qed.

Lemma rounds_length ks : ∀ st,
  ks ≠ [] → length (fold_left SHA256.round ks st).1 = 8%nat.
Proof.
  induction ks as [|k ks IH] using rev_ind; intros st Hne; [done|].
  rewrite fold_left_app. apply round_length.
Qed.

Lemma K_nonempty : SHA256.K ≠ [].
Proof. unfold SHA256.K. discriminate. Qed.

Lemma compress_length h block :
  length h = 8%nat → length (SHA256.compress h block) = 8%nat.
Proof.
  intros Hh. unfold SHA256.compress.
  pose proof (rounds_length SHA256.K (h, block) K_nonempty) as Hr.
  destruct (fold_left SHA256.round SHA256.K (h, block)) as [v w].
  rewrite length_zip_with. cbn [fst] in Hr. rewrite Hh, Hr. reflexivity.
Qed.

Lemma fold_left_step {A B : Type} (f : A → B → A) (x : B) (l : list B) (a : A) :
  fold_left f (x :: l) a = fold_left f l (f a x).
Proof. reflexivity. Qed.

Lemma compress_all_length bs : ∀ h,
  length h = 8%nat → length (fold_left SHA256.compress bs h) = 8%nat.
Proof.
  induction bs as [|b bs IH]; intros h Hh.
  - exact Hh.
  - rewrite fold_left_step. apply IH, compress_length, Hh.
Qed.

Lemma digest_words_length msg : length (SHA256.digest_words msg) = 8%nat.
Proof. unfold SHA256.digest_words. apply compress_all_length. reflexivity. Qed.

Lemma hex_of_word_length n x : String.length (SHA256.hex_of_word n x) = n.
Proof.
  induction n as [|n IH]; [reflexivity|].
  cbn [SHA256.hex_of_word String.length]. by rewrite IH.
Qed.

Lemma hex_of_words_length ws :
  String.length (SHA256.hex_of_words ws) = (8 * length ws)%nat.
Proof.
  induction ws as [|x ws IH]; [reflexivity|].
  cbn [SHA256.hex_of_words length]. rewrite length_app, hex_of_word_length, IH. lia.
Qed.

Lemma hexdigest_length s : String.length (SHA256.hexdigest s) = 64%nat.
Proof.
  unfold SHA256.hexdigest. rewrite hex_of_words_length, digest_words_length.
  reflexivity.
Qed.

Lemma take_length n : ∀ s,
  (n ≤ String.length s)%nat → String.length (Str.take n s) = n.
Proof.
  induction n as [|n IH]; intros [|c s] H; cbn [Str.take String.length] in *;
    try reflexivity; try lia.
  rewrite IH; [reflexivity|lia].
Qed.

Lemma entity_hash_length ty v nonce : String.length (entity_hash ty v nonce) = 12%nat.
Proof. unfold entity_hash. apply take_length. rewrite hexdigest_length. lia. Qed.

End DigestLength.

(** ** tokenizer.py: the two tables of an instance *)

Section TokenTables.
Implicit Types (tk : Tokenizer) (os : Entropy) (ty v t : string).

Lemma mint_all_prefix calls : ∀ tk os,
  token_prefix (mint_all tk os calls).1.2 = token_prefix tk.
Proof.
  induction calls as [|c calls IH]; intros tk os; [done|].
  rewrite mint_all_cons. cbn zeta. cbn [fst snd].
  by rewrite IH, generate_token_prefix.
Qed.

Lemma consistent_new prefix : consistent (Tokenizer_new prefix) [].
Proof. intros t ty v H. cbn in H. by rewrite lookup_empty in H. Qed.

Lemma consistent_generate_token tk os hist ty v :
  consistent tk hist →
  consistent (generate_token tk os ty v).1.2 (hist ++ [(ty, v)]).
Proof.
  intros Hc. unfold generate_token.
  destruct (entity_tokens tk !! v) as [t0|] eqn:E; cbn [fst snd].
  - intros t ty' v' H. destruct (Hc t ty' v' H) as (H1 & H2 & H3).
    split; [done|]. split; [|done]. apply elem_of_app. by left.
  - unfold token_hex. cbn [fst snd].
    set (tok := make_token _ _ _).
    intros t ty' v' H. cbn [token_entities entity_tokens token_prefix] in *.
    destruct (decide (tok = t)) as [<-|Hne].
    + rewrite lookup_insert_eq in H. injection H as <- <-.
      split; [apply lookup_insert_eq|].
      split; [apply elem_of_app; right; by left|]. by eexists.
    + rewrite lookup_insert_ne in H by done.
      destruct (Hc t ty' v' H) as (H1 & H2 & H3).
      split.
      * rewrite lookup_insert_ne; [done|]. intros <-. congruence.
      * split; [|done]. apply elem_of_app. by left.
Qed.

Lemma consistent_mint_all calls : ∀ tk os hist,
  consistent tk hist →
  consistent (mint_all tk os calls).1.2 (hist ++ calls).
Proof.
  induction calls as [|[ty v] calls IH]; intros tk os hist Hc.
  - by rewrite app_nil_r.
  - rewrite mint_all_cons. cbn zeta. cbn [fst snd].
    replace (hist ++ (ty, v) :: calls)%list with ((hist ++ [(ty, v)]) ++ calls)%list
      by (by rewrite <- app_assoc).
    by apply IH, consistent_generate_token.
Qed.

End TokenTables.

Lemma token_records_well_formed_aux prefix os calls t ty v :
  token_entities (mint_all (Tokenizer_new prefix) os calls).1.2 !! t = Some (ty, v) →
  entity_tokens (mint_all (Tokenizer_new prefix) os calls).1.2 !! v = Some t ∧
  (ty, v) ∈ calls.
Proof.
  intros H.
  destruct (consistent_mint_all calls (Tokenizer_new prefix) os []
              (consistent_new prefix) t ty v H) as (H1 & H2 & _).
  by split.
Qed.

(** X1. On an instance that started empty, every record token -> (type,
    value) belongs to a call that was made, the value's own token is that
    token, and the token is the prefix, the upper-cased type, an underscore
    and twelve hexadecimal digits. *)
Theorem token_records_well_formed
    (prefix : string) (os : Entropy) (calls : list (string * string))
    (t ty v : string) :
  token_entities (mint_all (Tokenizer_new prefix) os calls).1.2 !! t = Some (ty, v) →
  entity_tokens (mint_all (Tokenizer_new prefix) os calls).1.2 !! v = Some t ∧
  (ty, v) ∈ calls ∧
  ∃ h, t = prefix +:+ Str.upper ty +:+ "_" +:+ h ∧
       String.length h = 12%nat ∧ Str.all SHA256.is_hex h = true.
Proof.
  intros H.
  destruct (consistent_mint_all calls (Tokenizer_new prefix) os []
              (consistent_new prefix) t ty v H) as (H1 & H2 & nonce & H3).
  split; [done|]. split; [done|].
  exists (entity_hash ty v nonce).
  rewrite mint_all_prefix in H3.
  split; [exact H3|]. split; [apply entity_hash_length|apply entity_hash_is_hex].
Qed.

Lemma token_records_well_formed_witness :
  entity_tokens
    (mint_all (Tokenizer_new "TOKEN_") (entropy_of ["0123456789abcdef"])
       [("email", "x"); ("phone", "x")]).1.2 !! "x" = Some "TOKEN_EMAIL_ef4ba4285d0a" ∧
  ("email", "x") ∈ [("email", "x"); ("phone", "x")] ∧
  ∃ h, "TOKEN_EMAIL_ef4ba4285d0a" = "TOKEN_" +:+ Str.upper "email" +:+ "_" +:+ h ∧
       String.length h = 12%nat ∧ Str.all SHA256.is_hex h = true.
Proof.
  apply (token_records_well_formed "TOKEN_" (entropy_of ["0123456789abcdef"])
           [("email", "x"); ("phone", "x")] "TOKEN_EMAIL_ef4ba4285d0a" "email" "x").
  vm_compute. reflexivity.
Defined.

(** X2. A sequence of calls adds exactly the values passed to the values
    that have a token, and takes one draw from the entropy source for each
    distinct value that had none. *)
Theorem mint_all_values_and_draws
    (tk : Tokenizer) (os : Entropy) (calls : list (string * string)) :
  dom (entity_tokens (mint_all tk os calls).1.2)
    = dom (entity_tokens tk) ∪ list_to_set calls.*2 ∧
  drawn (mint_all tk os calls).2
    = (drawn os + size (list_to_set calls.*2 ∖ dom (entity_tokens tk) : gset string))%nat ∧
  hex_values (mint_all tk os calls).2 = hex_values os.
Proof.
  assert (Hmem : ∀ (X Y : gset string),
            (∀ x, x ∈ X ↔ x ∈ Y) → X = Y) by (intros X Y H; by apply set_eq).
  revert tk os. induction calls as [|[ty v] calls IH]; intros tk os.
  - cbn [mint_all fst snd fmap list_fmap list_to_set].
    split; [by rewrite (right_id_L ∅ (∪))|]. split; [|done].
    replace (∅ ∖ dom (entity_tokens tk)) with (∅ : gset string).
    + rewrite size_empty. lia.
    + apply Hmem. intros x. rewrite elem_of_difference, elem_of_empty. tauto.
  - rewrite mint_all_cons. cbn zeta. cbn [fst snd].
    destruct (IH (generate_token tk os ty v).1.2 (generate_token tk os ty v).2)
      as (Hd & Hn & Hh).
    rewrite Hd, Hn, Hh. clear IH Hd Hn Hh.
    rewrite fmap_cons, list_to_set_cons. cbn [snd].
    unfold generate_token.
    destruct (entity_tokens tk !! v) as [t0|] eqn:E; cbn [fst snd].
    + assert (v ∈ dom (entity_tokens tk)) as Hv by (apply elem_of_dom; by eexists).
      split; [|split; [|done]].
      * apply Hmem. intros x. rewrite !elem_of_union, elem_of_singleton.
        destruct (decide (x = v)) as [->|]; tauto.
      * f_equal. f_equal. apply Hmem. intros x.
        rewrite !elem_of_difference, elem_of_union, elem_of_singleton.
        destruct (decide (x = v)) as [->|]; tauto.
    + assert (v ∉ dom (entity_tokens tk)) as Hv by by apply not_elem_of_dom.
      unfold token_hex. cbn [entity_tokens drawn hex_values fst snd].
      rewrite dom_insert_L.
      split; [|split; [|done]].
      * apply Hmem. intros x. rewrite !elem_of_union. tauto.
      * replace (({[v]} ∪ list_to_set calls.*2) ∖ dom (entity_tokens tk))
          with ({[v]} ∪ (list_to_set calls.*2 ∖ ({[v]} ∪ dom (entity_tokens tk)))
                  : gset string).
        -- assert (({[v]} : gset string)
                     ## list_to_set calls.*2 ∖ ({[v]} ∪ dom (entity_tokens tk)))
             as Hdisj.
           { apply elem_of_disjoint. intros x Hx1 Hx2.
             rewrite elem_of_difference, elem_of_union in Hx2. tauto. }
           rewrite (size_union _ _ Hdisj), size_singleton. lia.
        -- apply Hmem. intros x. rewrite !elem_of_union, !elem_of_difference,
             !elem_of_union, !elem_of_singleton.
           destruct (decide (x = v)) as [->|]; tauto.
Qed.

(** X3. An instance that started empty keeps records only for the tokens it
    returned: any other string is its own original value, and its entity
    type is read as a new instance would read it. *)
Theorem foreign_token_passes_through
    (prefix : string) (os : Entropy) (calls : list (string * string)) (t : string) :
  t ∉ (mint_all (Tokenizer_new prefix) os calls).1.1 →
  get_original_value (mint_all (Tokenizer_new prefix) os calls).1.2 t = t ∧
  get_entity_type_from_token (mint_all (Tokenizer_new prefix) os calls).1.2 t
    = get_entity_type_from_token (Tokenizer_new prefix) t.
Proof.
  intros Hnot.
  assert (token_entities (mint_all (Tokenizer_new prefix) os calls).1.2 !! t = None)
    as Hnone.
  { destruct (token_entities _ !! t) as [[ty v]|] eqn:E; [|done].
    exfalso. apply Hnot.
    destruct (token_records_well_formed_aux prefix os calls t ty v E) as [H1 H2].
    apply list_elem_of_lookup in H2 as [i Hi].
    apply list_elem_of_lookup. exists i.
    by rewrite (mint_all_lookup calls _ os i ty v Hi). }
  unfold get_original_value, get_entity_type_from_token.
  rewrite Hnone, mint_all_prefix. cbn [token_entities Tokenizer_new token_prefix].
  by rewrite lookup_empty.
Qed.

Lemma foreign_token_passes_through_witness :
  get_original_value
    (mint_all (Tokenizer_new "TOKEN_") (entropy_of ["0123456789abcdef"])
       [("email", "x")]).1.2 "TOKEN_EMAIL_000000000000" = "TOKEN_EMAIL_000000000000" ∧
  get_entity_type_from_token
    (mint_all (Tokenizer_new "TOKEN_") (entropy_of ["0123456789abcdef"])
       [("email", "x")]).1.2 "TOKEN_EMAIL_000000000000"
    = get_entity_type_from_token (Tokenizer_new "TOKEN_") "TOKEN_EMAIL_000000000000".
Proof.
  apply foreign_token_passes_through.
  apply (bool_decide_unpack _). vm_compute. exact I.
Defined.

(** ** tokenizer.py: the type of a token the instance does not hold *)

Lemma split_go_no_sep sep : ∀ a cur,
  Str.all (Str.differs sep) a = true → Str.split_go sep cur a = [cur +:+ a].
Proof.
  induction a as [|c a IH]; intros cur Ha.
  - cbn [Str.split_go]. by rewrite app_empty_r.
  - cbn [Str.split_go Str.all] in *. apply andb_true_iff in Ha as [Hc Ha].
    unfold Str.differs in Hc. apply negb_true_iff in Hc. rewrite Hc.
    by rewrite IH, app_snoc.
Qed.

Lemma unrecorded_token_parse (tk : Tokenizer) (token a rest : string) :
  token_entities tk !! token = None →
  Str.all (Str.differs "_") a = true →
  token = token_prefix tk +:+ a +:+ "_" +:+ rest →
  get_entity_type_from_token tk token = Str.lower a.
Proof.
  intros Hnone Ha ->. unfold get_entity_type_from_token. rewrite Hnone.
  rewrite startswith_app, drop_app. unfold Str.split.
  change ("_" +:+ rest) with (String "_" rest).
  rewrite split_go_first by done.
  pose proof (split_go_nonempty "_" rest "") as Hlen.
  cbn [length nth]. destruct (length (Str.split_go "_" "" rest)); [lia|].
  reflexivity.
Qed.

(** X4. For a token the instance has no record of, the entity type is
    unknown when the token does not start with the prefix or has no
    underscore after it, and otherwise the lower-cased text between the
    prefix and the first underscore. *)
Theorem unrecorded_token_type (tk : Tokenizer) (token : string) :
  token_entities tk !! token = None →
  (Str.startswith (token_prefix tk) token = false →
     get_entity_type_from_token tk token = "unknown") ∧
  (∀ a, Str.all (Str.differs "_") a = true →
     token = token_prefix tk +:+ a →
     get_entity_type_from_token tk token = "unknown") ∧
  (∀ a rest, Str.all (Str.differs "_") a = true →
     token = token_prefix tk +:+ a +:+ "_" +:+ rest →
     get_entity_type_from_token tk token = Str.lower a).
Proof.
  intros Hnone. unfold get_entity_type_from_token. rewrite Hnone.
  split; [by intros ->|]. split.
  - intros a Ha ->. rewrite startswith_app, drop_app. unfold Str.split.
    by rewrite split_go_no_sep.
  - intros a rest Ha Htok.
    pose proof (unrecorded_token_parse tk token a rest Hnone Ha Htok) as H.
    unfold get_entity_type_from_token in H. by rewrite Hnone in H.
Qed.

Lemma unrecorded_token_type_witness :
  get_entity_type_from_token Tokenizer_init "NOT_A_TOKEN" = "unknown" ∧
  get_entity_type_from_token Tokenizer_init "TOKEN_EMAIL" = "unknown" ∧
  get_entity_type_from_token Tokenizer_init "TOKEN_Email_x_y" = "email".
Proof.
  destruct (unrecorded_token_type Tokenizer_init "NOT_A_TOKEN") as (H & _ & _);
    [reflexivity|].
  destruct (unrecorded_token_type Tokenizer_init "TOKEN_EMAIL") as (_ & H' & _);
    [reflexivity|].
  destruct (unrecorded_token_type Tokenizer_init "TOKEN_Email_x_y") as (_ & _ & H'');
    [reflexivity|].
  split; [apply H; reflexivity|].
  split; [apply (H' "EMAIL"); reflexivity|].
  apply (H'' "Email" "x_y"); reflexivity.
Defined.



(** ** roles.py: the role table *)

(** X6. After [add_role] the getters answer for the added name with the
    values passed, replacing whatever the name had before, and answer for
    every other name as they did. *)
Theorem add_role_view
    (rm : RoleManager) (name : string) (allowed : list string) (restore : bool)
    (descr : string) (other : string) :
  role_view (add_role rm name allowed restore descr) name
    = (list_to_set allowed, restore, descr) ∧
  (other ≠ name →
   role_view (add_role rm name allowed restore descr) other = role_view rm other).
Proof.
  unfold role_view, get_allowed_entities, can_restore, get_role_description, add_role.
  cbn [roles]. split.
  - by rewrite lookup_insert_eq.
  - intros Hne. by rewrite lookup_insert_ne.
Qed.

Lemma add_role_view_witness :
  role_view (add_role RoleManager_init "public" ["email"] true "now sees e-mail") "public"
    = (list_to_set ["email"], true, "now sees e-mail") ∧
  role_view (add_role RoleManager_init "public" ["email"] true "now sees e-mail") "admin"
    = role_view RoleManager_init "admin".
Proof.
  destruct (add_role_view RoleManager_init "public" ["email"] true "now sees e-mail" "admin")
    as [H1 H2].
  split; [exact H1|]. apply H2. discriminate.
Defined.

Lemma load_roles_lookup_other config : ∀ (m : gmap string Role) name,
  name ∉ config.*1 →
  fold_left (λ m kv, <[kv.1 := kv.2]> m) config m !! name = m !! name.
Proof.
  induction config as [|[k r] config IH]; intros m name Hn; [done|].
  rewrite fold_left_step. cbn [fst snd]. rewrite fmap_cons in Hn. cbn [fst] in Hn.
  apply not_elem_of_cons in Hn as [Hne Hn].
  rewrite IH by done. by rewrite lookup_insert_ne.
Qed.

Lemma load_roles_lookup_last c1 c2 : ∀ (m : gmap string Role) name r,
  name ∉ c2.*1 →
  fold_left (λ m kv, <[kv.1 := kv.2]> m) (c1 ++ (name, r) :: c2)%list m !! name = Some r.
Proof.
  intros m name r Hn. rewrite fold_left_app, fold_left_step. cbn [fst snd].
  rewrite load_roles_lookup_other by done. apply lookup_insert_eq.
Qed.

(** X7. [load_roles] overlays the table: a name the configuration does not
    mention keeps its role, and a name it mentions gets the role of its last
    entry as a whole, a missing can_restore reading as False and a missing
    description as the empty string whatever the name had before. *)
Theorem load_roles_overlay
    (rm : RoleManager) (c1 c2 : list (string * Role)) (name : string) (r : Role)
    (other : string) :
  name ∉ c2.*1 →
  role_view (load_roles rm (c1 ++ (name, r) :: c2)%list) name
    = (list_to_set (allowed_entities r),
       default false (can_restore_field r),
       default "" (description r)) ∧
  (other ∉ (c1 ++ (name, r) :: c2)%list.*1 →
   role_view (load_roles rm (c1 ++ (name, r) :: c2)%list) other = role_view rm other).
Proof.
  intros Hn.
  unfold role_view, get_allowed_entities, can_restore, get_role_description, load_roles.
  cbn [roles]. split.
  - by rewrite load_roles_lookup_last.
  - intros Ho. by rewrite load_roles_lookup_other.
Qed.

Lemma load_roles_overlay_witness :
  role_view
    (load_roles RoleManager_init
       ([] ++ ("manager",
               {| allowed_entities := ["name"]; can_restore_field := None;
                  description := None |}) :: [])%list) "manager"
    = (list_to_set ["name"], false, "") ∧
  role_view
    (load_roles RoleManager_init
       ([] ++ ("manager",
               {| allowed_entities := ["name"]; can_restore_field := None;
                  description := None |}) :: [])%list) "admin"
    = role_view RoleManager_init "admin".
Proof.
  destruct (load_roles_overlay RoleManager_init []  []
              "manager"
              {| allowed_entities := ["name"]; can_restore_field := None;
                 description := None |} "admin") as [H1 H2].
  - apply (bool_decide_unpack _). vm_compute. exact I.
  - split; [exact H1|]. apply H2. apply (bool_decide_unpack _). vm_compute. exact I.
Defined.

(** ** roles.py: the order of the roles *)

Lemma level_known r : r ∈ builtin_roles → requester_level r = target_level r.
Proof.
  unfold builtin_roles. rewrite !elem_of_cons, elem_of_nil.
  intros [->|[->|[->|[->|[->|[]]]]]]; reflexivity.
Qed.

Lemma requester_level_known r :
  (0 <= requester_level r)%Z → r ∈ builtin_roles.
Proof.
  intros H. destruct (decide (r ∈ builtin_roles)) as [|Hn]; [done|].
  rewrite (requester_level_other r Hn) in H. lia.
Qed.

Lemma levels_injective a b :
  a ∈ builtin_roles → b ∈ builtin_roles →
  requester_level a = requester_level b → a = b.
Proof.
  unfold builtin_roles. rewrite !elem_of_cons, !elem_of_nil.
  intros [->|[->|[->|[->|[->|[]]]]]] [->|[->|[->|[->|[->|[]]]]]];
    vm_compute; congruence.
Qed.

(** X8. On the five built-in roles the check is a total order: a role
    passes the check against itself exactly when it is built-in, the check
    is transitive, two roles that pass it both ways are the same role, and
    of two built-in roles one passes it against the other. *)
Theorem role_hierarchy_check_total_order (a b c : string) :
  (role_hierarchy_check a a = true ↔ a ∈ builtin_roles) ∧
  (role_hierarchy_check a b = true → role_hierarchy_check b c = true →
   role_hierarchy_check a c = true) ∧
  (role_hierarchy_check a b = true → role_hierarchy_check b a = true → a = b) ∧
  (a ∈ builtin_roles → b ∈ builtin_roles →
   role_hierarchy_check a b = true ∨ role_hierarchy_check b a = true).
Proof.
  unfold role_hierarchy_check. rewrite !Z.geb_leb, !Z.leb_le.
  pose proof (target_level_nonneg a) as Ha.
  pose proof (target_level_nonneg b) as Hb.
  pose proof (target_level_nonneg c) as Hc.
  split; [|split; [|split]].
  - split.
    + intros H. apply requester_level_known. lia.
    + intros H. rewrite (level_known a H). lia.
  - intros Hab Hbc.
    assert (b ∈ builtin_roles) as Hin by (apply requester_level_known; lia).
    rewrite (level_known b Hin) in Hbc. lia.
  - intros Hab Hba.
    assert (a ∈ builtin_roles) as Hina by (apply requester_level_known; lia).
    assert (b ∈ builtin_roles) as Hinb by (apply requester_level_known; lia).
    apply levels_injective; [done..|].
    rewrite <- (level_known a Hina) in Hba. rewrite <- (level_known b Hinb) in Hab.
    lia.
  - intros Hina Hinb. rewrite <- (level_known a Hina), <- (level_known b Hinb). lia.
Qed.

Lemma role_hierarchy_check_total_order_witness :
  (role_hierarchy_check "security" "security" = true ↔ "security" ∈ builtin_roles) ∧
  role_hierarchy_check "security" "internal" = true ∧
  (role_hierarchy_check "security" "manager" = true →
   role_hierarchy_check "manager" "security" = true → "security" = "manager") ∧
  (role_hierarchy_check "security" "manager" = true ∨
   role_hierarchy_check "manager" "security" = true).
Proof.
  destruct (role_hierarchy_check_total_order "security" "manager" "internal")
    as (H1 & H2 & H3 & H4).
  split; [exact H1|]. split; [apply H2; reflexivity|]. split; [exact H3|].
  apply H4; apply (bool_decide_unpack _); vm_compute; exact I.
Defined.

Lemma decide_by_bool (P : Prop) `{Decision P} (b : bool) :
  bool_decide P = b → (b = true ↔ P).
Proof. intros <-. apply bool_decide_eq_true. Qed.

(** X9. In the default role table the hierarchy and the permissions agree:
    for built-in roles, the requester passes the check exactly when it may
    see every entity type the target may see; and then it may restore
    whenever the target may. *)
Theorem default_hierarchy_matches_permissions (r t : string) :
  r ∈ builtin_roles → t ∈ builtin_roles →
  (role_hierarchy_check r t = true ↔
   get_allowed_entities RoleManager_init t ⊆ get_allowed_entities RoleManager_init r) ∧
  (role_hierarchy_check r t = true →
   can_restore RoleManager_init t = true → can_restore RoleManager_init r = true).
Proof.
  unfold builtin_roles. rewrite !elem_of_cons, !elem_of_nil.
  intros [->|[->|[->|[->|[->|[]]]]]] [->|[->|[->|[->|[->|[]]]]]];
    (split; [apply (decide_by_bool (_ ⊆ _)); vm_compute; reflexivity
            |vm_compute; intros; congruence]).
Qed.

Lemma default_hierarchy_matches_permissions_witness :
  (role_hierarchy_check "admin" "manager" = true ↔
   get_allowed_entities RoleManager_init "manager"
     ⊆ get_allowed_entities RoleManager_init "admin") ∧
  (role_hierarchy_check "admin" "manager" = true →
   can_restore RoleManager_init "manager" = true →
   can_restore RoleManager_init "admin" = true).
Proof.
  apply default_hierarchy_matches_permissions;
    apply (bool_decide_unpack _); vm_compute; exact I.
Defined.

(** ** core.py: what the patterns can match *)

Section Matching.
Implicit Types (s : string) (p : Re.pattern) (k : Re.matcher).

Lemma drop_length n : ∀ s,
  String.length (Str.drop n s) = (String.length s - n)%nat.
Proof.
  induction n as [|n IH]; intros [|c s]; cbn [Str.drop String.length];
    try lia. apply IH.
Qed.

Lemma drop_drop n : ∀ m s, Str.drop m (Str.drop n s) = Str.drop (n + m) s.
Proof.
  induction n as [|n IH]; intros m [|c s]; cbn [Str.drop plus]; try done.
  by destruct m.
Qed.

Lemma startswith_take n : ∀ s, Str.startswith (Str.take n s) s = true.
Proof.
  induction n as [|n IH]; intros [|c s]; cbn [Str.take Str.startswith]; try done.
  by rewrite Ascii.eqb_refl.
Qed.

Lemma contains_startswith sub s : Str.startswith sub s = true → Str.contains sub s = true.
Proof. intros H. destruct s; cbn [Str.contains]; by rewrite H. Qed.

Lemma contains_cons sub c s :
  Str.contains sub s = true → Str.contains sub (String c s) = true.
Proof. intros H. cbn [Str.contains]. rewrite H. apply orb_true_r. Qed.

Lemma rep_spec f k : ∀ s lo hi prev r,
  Re.rep f k lo hi prev s = Some r →
  ∃ n prev', k prev' (Str.drop n s) = Some r ∧
             (lo ≤ n ≤ String.length s)%nat ∧ within n hi.
Proof.
  assert (Hstop : ∀ s lo hi prev r,
            match lo with O => k prev s | S _ => None end = Some r →
            ∃ n prev', k prev' (Str.drop n s) = Some r ∧
                       (lo ≤ n ≤ String.length s)%nat ∧ within n hi).
  { intros s [|lo] hi prev r H; [|done]. exists 0%nat, prev.
    split; [done|]. split; [lia|]. destruct hi; cbn; lia. }
  induction s as [|c s IH]; intros lo hi prev r H.
  - apply Hstop with (prev := prev). by destruct hi as [[|h]|].
  - destruct (decide (hi = Some 0%nat)) as [->|Hhi];
      [by apply Hstop with (prev := prev)|].
    assert (Re.rep f k lo hi prev (String c s) =
            if f c
            then match Re.rep f k (pred lo) (pred <$> hi) (Some c) s with
                 | Some r => Some r
                 | None => match lo with O => k prev (String c s) | S _ => None end
                 end
            else match lo with O => k prev (String c s) | S _ => None end) as E
      by (by destruct hi as [[|h]|]).
    rewrite E in H. clear E.
    destruct (f c); [|by apply Hstop with (prev := prev)].
    destruct (Re.rep f k (pred lo) (pred <$> hi) (Some c) s) as [r'|] eqn:E;
      [|by apply Hstop with (prev := prev)].
    injection H as ->.
    destruct (IH _ _ _ _ E) as (n & prev' & Hk & Hn & Hw).
    exists (S n), prev'. split; [done|]. split; [cbn [String.length]; lia|].
    destruct hi as [[|h]|]; cbn in *; try done; lia.
Qed.

Lemma run_spec p : ∀ k prev s r,
  Re.run p k prev s = Some r →
  ∃ n prev', k prev' (Str.drop n s) = Some r ∧
             (min_length p ≤ n ≤ String.length s)%nat ∧ within n (max_length p).
Proof.
  induction p as [|i p IH]; intros k prev s r H.
  - exists 0%nat, prev. split; [done|]. split; [cbn; lia|]. cbn. lia.
  - cbn [Re.run] in H. destruct i as [|f lo hi]; cbn [Re.run_item] in H.
    + destruct (Re.at_boundary prev s); [|done].
      destruct (IH _ _ _ _ H) as (n & prev' & Hk & Hn & Hw).
      exists n, prev'. split; [done|]. split; [done|].
      cbn [max_length foldr item_max] in *. fold (max_length p).
      by destruct (max_length p).
    + destruct (rep_spec _ _ _ _ _ _ _ H) as (n1 & prev1 & Hk1 & Hn1 & Hw1).
      destruct (IH _ _ _ _ Hk1) as (n2 & prev2 & Hk2 & Hn2 & Hw2).
      rewrite drop_drop in Hk2. rewrite drop_length in Hn2.
      exists (n1 + n2)%nat, prev2. split; [done|].
      split; [cbn [min_length foldr item_min]; fold (min_length p); lia|].
      cbn [max_length foldr item_max]. fold (max_length p).
      destruct hi as [h|], (max_length p) as [m|]; cbn in *; try done; lia.
Qed.

Lemma match_here_spec p prev s rest :
  Re.match_here p prev s = Some rest →
  let n := (String.length s - String.length rest)%nat in
  Str.startswith (Str.take n s) s = true ∧
  (min_length p ≤ String.length (Str.take n s))%nat ∧
  within (String.length (Str.take n s)) (max_length p).
Proof.
  intros H. destruct (run_spec _ _ _ _ _ H) as (n & prev' & Hk & Hn & Hw).
  injection Hk as <-. rewrite drop_length. cbn zeta.
  replace (String.length s - (String.length s - n))%nat with n by lia.
  split; [apply startswith_take|]. rewrite take_length by lia. split; [lia|done].
Qed.

Lemma scan_spec p : ∀ s skip prev v,
  v ∈ Re.scan p skip prev s →
  Str.contains v s = true ∧
  (min_length p ≤ String.length v)%nat ∧ within (String.length v) (max_length p).
Proof.
  induction s as [|c s IH]; intros skip prev v Hv.
  - destruct skip as [|skip]; cbn [Re.scan] in Hv; [|by apply elem_of_nil in Hv].
    destruct (Re.match_here p prev "") as [rest|] eqn:E;
      [|by apply elem_of_nil in Hv].
    apply list_elem_of_singleton in Hv as ->.
    destruct (match_here_spec _ _ _ _ E) as (H1 & H2 & H3).
    split; [by apply contains_startswith|done].
  - destruct skip as [|skip]; cbn [Re.scan] in Hv.
    + destruct (Re.match_here p prev (String c s)) as [rest|] eqn:E.
      * apply elem_of_cons in Hv as [->|Hv].
        -- destruct (match_here_spec _ _ _ _ E) as (H1 & H2 & H3).
           split; [by apply contains_startswith|done].
        -- destruct (IH _ _ _ Hv) as (H1 & H2). split; [by apply contains_cons|done].
      * destruct (IH _ _ _ Hv) as (H1 & H2). split; [by apply contains_cons|done].
    + destruct (IH _ _ _ Hv) as (H1 & H2). split; [by apply contains_cons|done].
Qed.

End Matching.

(** Every string [re.findall] reports for a pattern of the fragment occurs
    in the text and has at least as many characters as the pattern's
    repetitions require and at most as many as they allow. *)
Lemma findall_sound (p : Re.pattern) (text v : string) :
  v ∈ Re.findall p text →
  Str.contains v text = true ∧
  (min_length p ≤ String.length v)%nat ∧
  within (String.length v) (max_length p).
Proof. apply scan_spec. Qed.

(** ** core.py: what [_find_entities] reports *)

Section Detection.
Implicit Types (found : entities) (Q : string → string → Prop).

Lemma entries_sound_set Q found T S :
  entries_sound Q found → S ≠ ∅ → (∀ v, v ∈ S → Q T v) →
  entries_sound Q (Dict.set found T S).
Proof.
  intros Hs Hne HQ T' S' Hget. destruct (decide (T = T')) as [<-|Hn].
  - rewrite dict_get_set_eq in Hget. by injection Hget as <-.
  - rewrite dict_get_set_ne in Hget by done. by apply Hs.
Qed.

Lemma find_pattern_sound Q text found entry :
  entries_sound Q found →
  (∀ v, v ∈ Re.findall entry.2 text → Q entry.1 v) →
  entries_sound Q (find_pattern text found entry).
Proof.
  intros Hs HQ. unfold find_pattern. case_bool_decide as Hempty; [done|].
  apply entries_sound_set; [done..|].
  intros v Hv. apply HQ. by apply elem_of_list_to_set in Hv.
Qed.

Lemma found_custom_sound text l v :
  v ∈ found_custom text l → v ∈ l ∧ Str.contains v text = true.
Proof.
  unfold found_custom.
  assert (∀ acc : gset string,
            v ∈ fold_left (λ acc e, if Str.contains e text then acc ∪ {[e]} else acc) l acc →
            v ∈ acc ∨ (v ∈ l ∧ Str.contains v text = true)) as H.
  { induction l as [|x l IH]; intros acc Hv; [by left|].
    rewrite fold_left_step in Hv. apply IH in Hv as [Hv|[Hv Hc]].
    - destruct (Str.contains x text) eqn:E; [|by left].
      apply elem_of_union in Hv as [Hv|Hv]; [by left|].
      apply elem_of_singleton in Hv as ->. right. split; [by left|done].
    - right. split; [by right|done]. }
  intros Hv. destruct (H ∅ Hv) as [Hv'|]; [|done]. by apply not_elem_of_empty in Hv'.
Qed.

Lemma find_custom_sound Q text found entry :
  entries_sound Q found →
  (∀ v, v ∈ entry.2 → Str.contains v text = true → Q entry.1 v) →
  entries_sound Q (find_custom text found entry).
Proof.
  intros Hs HQ. unfold find_custom. case_bool_decide as Hempty; [done|].
  apply entries_sound_set; [done| |].
  - intros Hu. apply Hempty. apply set_eq. intros x. split; [|by intros ?%not_elem_of_empty].
    intros Hx. rewrite <- Hu. apply elem_of_union. by right.
  - intros v Hv. apply elem_of_union in Hv as [Hv|Hv].
    + unfold Dict.get_default in Hv.
      destruct (Dict.get found entry.1) as [S0|] eqn:E;
        [|by apply not_elem_of_empty in Hv].
      by apply (Hs _ _ E).
    + apply found_custom_sound in Hv as [Hv Hc]. by apply HQ.
Qed.

Lemma fold_sound {A} Q (f : entities → A → entities) (l : list A) :
  (∀ found x, x ∈ l → entries_sound Q found → entries_sound Q (f found x)) →
  ∀ found, entries_sound Q found → entries_sound Q (fold_left f l found).
Proof.
  induction l as [|x l IH]; intros Hf found Hs; [done|].
  rewrite fold_left_step. apply IH.
  - intros found' y Hy. apply Hf. by right.
  - apply Hf; [by left|done].
Qed.

End Detection.

Lemma find_entities_entries_sound
    (sd : SafeDisclosure) (text : string)
    (custom : option (list (string * list string))) :
  entries_sound
    (λ T v, Str.contains v text = true ∧ origin sd text custom T v)
    (_find_entities sd text custom).
Proof.
  set (Q := λ T v, Str.contains v text = true ∧ origin sd text custom T v).
  assert (entries_sound Q (fold_left (find_pattern text) (entity_patterns sd) []))
    as Hpat.
  { apply fold_sound; [|done].
    intros found [T' p] Hin Hs. apply find_pattern_sound; [done|].
    intros v Hv. split; [by apply (findall_sound p)|]. left. by exists p. }
  unfold _find_entities. destruct custom as [[|e cs]|]; [done| |done].
  apply fold_sound; [|done].
  intros found [T' l] Hin Hs. apply find_custom_sound; [done|].
  intros v Hv Hc. split; [done|]. right. by exists (e :: cs), l.
Qed.

(** X10. Every entry [_find_entities] returns holds a non-empty set, and
    every value in it occurs in the text and is a match of a pattern
    registered for the entry's type or a literal of a custom list given for
    that type. *)
Theorem find_entities_sound
    (sd : SafeDisclosure) (text : string)
    (custom : option (list (string * list string))) (T : string) (S : gset string) :
  Dict.get (_find_entities sd text custom) T = Some S →
  S ≠ ∅ ∧
  ∀ v, v ∈ S → Str.contains v text = true ∧ origin sd text custom T v.
Proof.
  intros Hget.
  destruct (find_entities_entries_sound sd text custom T S Hget) as [Hne Hin].
  split; [exact Hne|].
  intros v Hv. destruct (Hin v Hv) as [Hocc Hfrom]. by split.
Qed.

Lemma find_entities_sound_witness :
  ({["555-123-4567"]} : gset string) ≠ ∅ ∧
  ∀ v, v ∈ ({["555-123-4567"]} : gset string) →
       Str.contains v scenario_text = true ∧
       origin SafeDisclosure_init scenario_text None "phone" v.
Proof.
  apply (find_entities_sound SafeDisclosure_init scenario_text None "phone").
  vm_compute. reflexivity.
Defined.

(** X11. With the default patterns, a detected value is never empty: an
    e-mail address has at least 6 characters, a phone number 10 to 12, an
    SSN 9 to 11, a card number 16 to 19, an IP address 7 to 15 and a name
    at least 5. *)
Theorem default_detected_lengths
    (tk : Tokenizer) (text T : string) (S : gset string) (v : string) :
  Dict.get (_find_entities (default_instance tk) text None) T = Some S →
  v ∈ S →
  v ≠ "" ∧
  ∃ lo hi, Dict.get default_lengths T = Some (lo, hi) ∧
           (lo ≤ String.length v)%nat ∧ within (String.length v) hi.
Proof.
  intros Hget Hv.
  destruct (find_entities_entries_sound _ _ _ _ _ Hget) as [_ H]; cbn beta in H.
  destruct (H v Hv) as [_ [(p & Hp & Hin)|(cs & l & Hc & _)]]; [|done].
  apply findall_sound in Hin as (_ & Hlo & Hhi).
  cbn [entity_patterns default_instance] in Hp. unfold _load_default_patterns in Hp.
  rewrite !elem_of_cons, elem_of_nil in Hp.
  assert (∃ lo hi, Dict.get default_lengths T = Some (lo, hi) ∧
                   (lo ≤ String.length v)%nat ∧ within (String.length v) hi ∧
                   (1 ≤ lo)%nat) as (lo & hi & H1 & H2 & H3 & H4).
  { destruct Hp as [Hp|[Hp|[Hp|[Hp|[Hp|[Hp|[]]]]]]]; injection Hp as -> ->;
      eexists _, _; (split; [reflexivity|]); (split; [exact Hlo|]);
      (split; [exact Hhi|]); cbn; lia. }
  split; [|by exists lo, hi].
  intros ->. cbn in H2. lia.
Qed.

Lemma default_detected_lengths_witness :
  "555-123-4567" ≠ "" ∧
  ∃ lo hi, Dict.get default_lengths "phone" = Some (lo, hi) ∧
           (lo ≤ String.length "555-123-4567")%nat ∧
           within (String.length "555-123-4567") hi.
Proof.
  apply (default_detected_lengths Tokenizer_init scenario_text "phone"
           {["555-123-4567"]} "555-123-4567").
  - vm_compute. reflexivity.
  - by apply elem_of_singleton.
Defined.

(** X12. Custom entities are found as substrings: for an entity type that
    has no pattern, a value is detected exactly when it is in a list given
    for that type and occurs somewhere in the text. *)
Theorem custom_entity_detected_iff
    (sd : SafeDisclosure) (text : string) (cs : list (string * list string))
    (T v : string) :
  T ∉ Dict.keys (entity_patterns sd) →
  (∃ S, Dict.get (_find_entities sd text (Some cs)) T = Some S ∧ v ∈ S) ↔
  (∃ l, (T, l) ∈ cs ∧ v ∈ l ∧ Str.contains v text = true).
Proof.
  intros HT. split.
  - intros (S & Hget & Hv).
    destruct (find_entities_entries_sound _ _ _ _ _ Hget) as [_ H]; cbn beta in H.
    destruct (H v Hv) as [Hc [(p & Hp & _)|(cs' & l & Hcs & Hl & Hin)]].
    + exfalso. apply HT. unfold Dict.keys. apply list_elem_of_fmap. by exists (T, p).
    + injection Hcs as <-. by exists l.
  - intros (l & Hl & Hv & Hc). unfold _find_entities.
    destruct cs as [|e cs]; [by apply elem_of_nil in Hl|].
    by eapply find_customs_detect.
Qed.

Lemma custom_entity_detected_iff_witness :
  (∃ S, Dict.get (_find_entities SafeDisclosure_init "code ALPHA-123"
                    (Some [("secret_code", ["ALPHA-123"; "BETA-456"])])) "secret_code"
        = Some S ∧ "BETA-456" ∈ S) ↔
  (∃ l, ("secret_code", l) ∈ [("secret_code", ["ALPHA-123"; "BETA-456"])] ∧
        "BETA-456" ∈ l ∧ Str.contains "BETA-456" "code ALPHA-123" = true).
Proof.
  apply custom_entity_detected_iff.
  apply (bool_decide_unpack _). vm_compute. exact I.
Defined.

(** ** core.py: what [redact_document] tokenizes *)

Section Redaction.
Implicit Types (st : Redaction) (rt : Runtime) (allowed : gset string).

Lemma redact_types_visits rt allowed found : ∀ st,
  fold_left (redact_type rt allowed) found st
  = fold_left redact_visit (visits rt allowed found) st.
Proof.
  unfold visits. induction found as [|e found IH]; intros st; [done|].
  rewrite fold_left_step, bind_cons, fold_left_app, IH. f_equal.
  unfold redact_type. case_bool_decide; [done|].
  generalize (set_iter rt e.2). intros l. revert st.
  induction l as [|m l IHl]; intros st; [done|].
  rewrite fmap_cons, !fold_left_step. apply IHl.
Qed.

Lemma elem_of_visits rt allowed found ty m :
  (ty, m) ∈ visits rt allowed found ↔
  ∃ S, (ty, S) ∈ withheld allowed found ∧ m ∈ S.
Proof.
  unfold visits, withheld. rewrite list_elem_of_bind. split.
  - intros ([ty' S] & Hin & He). cbn [fst snd] in Hin.
    case_bool_decide as Ha; [by apply elem_of_nil in Hin|].
    apply list_elem_of_fmap in Hin as (m' & Heq & Hm). injection Heq as -> ->.
    exists S. split; [by apply list_elem_of_filter|].
    rewrite (set_iter_perm rt S) in Hm. by apply elem_of_elements in Hm.
  - intros (S & Hin & Hm). apply list_elem_of_filter in Hin as [Ha Hin].
    exists (ty, S). split; [|done]. cbn [fst snd] in *.
    rewrite bool_decide_eq_false_2 by done.
    apply list_elem_of_fmap. exists m. split; [done|].
    rewrite (set_iter_perm rt S). by apply elem_of_elements.
Qed.

Lemma redact_loop_visits rt sd os text role custom :
  redact_loop rt sd os text role custom
  = fold_left redact_visit
      (visits rt (get_allowed_entities (role_manager sd) role)
         (_find_entities sd text custom))
      {| r_tokenizer := tokenizer sd; r_entropy := os;
         redacted_text := text; token_mapping := [] |}.
Proof. unfold redact_loop. apply redact_types_visits. Qed.

Lemma dict_elem_of_set {V} (d : list (string * V)) k v k' v' :
  (k', v') ∈ Dict.set d k v → (k' = k ∧ v' = v) ∨ (k', v') ∈ d.
Proof.
  induction d as [|[k0 v0] d IH]; cbn [Dict.set].
  - intros ?%list_elem_of_singleton. left. by simplify_eq.
  - destruct (String.eqb_spec k0 k) as [->|Hne].
    + intros [?|?]%elem_of_cons; [left; by simplify_eq|right; by right].
    + intros [Heq|Hin]%elem_of_cons; [right; rewrite Heq; by left|].
      destruct (IH Hin) as [?|?]; [by left|right; by right].
Qed.

Lemma generate_token_dom tk os ty m v :
  is_Some (entity_tokens (generate_token tk os ty m).1.2 !! v) →
  v = m ∨ is_Some (entity_tokens tk !! v).
Proof.
  unfold generate_token, token_hex.
  destruct (entity_tokens tk !! m) eqn:E; cbn [fst snd].
  - by right.
  - cbn [entity_tokens]. destruct (decide (m = v)) as [->|Hne]; [by left|].
    rewrite lookup_insert_ne by done. by right.
Qed.

Lemma redact_visit_tokenizer st tm :
  r_tokenizer (redact_visit st tm)
  = (generate_token (r_tokenizer st) (r_entropy st) tm.1 tm.2).1.2.
Proof.
  unfold redact_visit, redact_match. by destruct (generate_token _ _ _ _) as [[? ?] ?].
Qed.

Lemma redact_visit_mapping st tm :
  token_mapping (redact_visit st tm)
  = Dict.set (token_mapping st)
      (generate_token (r_tokenizer st) (r_entropy st) tm.1 tm.2).1.1 tm.2.
Proof.
  unfold redact_visit, redact_match. by destruct (generate_token _ _ _ _) as [[? ?] ?].
Qed.

Lemma redact_visit_text st tm :
  redacted_text (redact_visit st tm)
  = Str.replace tm.2
      (generate_token (r_tokenizer st) (r_entropy st) tm.1 tm.2).1.1 (redacted_text st).
Proof.
  unfold redact_visit, redact_match. by destruct (generate_token _ _ _ _) as [[? ?] ?].
Qed.

Lemma redact_visit_entropy st tm :
  r_entropy (redact_visit st tm)
  = (generate_token (r_tokenizer st) (r_entropy st) tm.1 tm.2).2.
Proof.
  unfold redact_visit, redact_match. by destruct (generate_token _ _ _ _) as [[? ?] ?].
Qed.

Lemma redact_visits_mono l : ∀ st v t,
  entity_tokens (r_tokenizer st) !! v = Some t →
  entity_tokens (r_tokenizer (fold_left redact_visit l st)) !! v = Some t.
Proof.
  induction l as [|tm l IH]; intros st v t H; [done|].
  rewrite fold_left_step. apply IH. rewrite redact_visit_tokenizer.
  by apply generate_token_mono.
Qed.

Lemma redact_visits_known l : ∀ st tm,
  tm ∈ l → is_Some (entity_tokens (r_tokenizer (fold_left redact_visit l st)) !! tm.2).
Proof.
  induction l as [|tm0 l IH]; intros st tm Hin; [by apply elem_of_nil in Hin|].
  rewrite fold_left_step. apply elem_of_cons in Hin as [->|Hin]; [|by apply IH].
  eexists. apply redact_visits_mono. rewrite redact_visit_tokenizer.
  apply generate_token_lookup.
Qed.

Lemma redact_visits_minted l : ∀ st v,
  is_Some (entity_tokens (r_tokenizer (fold_left redact_visit l st)) !! v) →
  is_Some (entity_tokens (r_tokenizer st) !! v) ∨ ∃ ty, (ty, v) ∈ l.
Proof.
  induction l as [|[ty m] l IH]; intros st v H; [by left|].
  rewrite fold_left_step in H. apply IH in H as [H|[ty' H]].
  - rewrite redact_visit_tokenizer in H. apply generate_token_dom in H as [->|H].
    + right. exists ty. by left.
    + by left.
  - right. exists ty'. by right.
Qed.

Lemma redact_visits_entries l : ∀ st,
  (∀ tok v, (tok, v) ∈ token_mapping st →
     entity_tokens (r_tokenizer st) !! v = Some tok ∧ ∃ ty, (ty, v) ∈ l) →
  ∀ tok v, (tok, v) ∈ token_mapping (fold_left redact_visit l st) →
    entity_tokens (r_tokenizer (fold_left redact_visit l st)) !! v = Some tok ∧
    ∃ ty, (ty, v) ∈ l.
Proof.
  assert (∀ (l l0 : list (string * string)) st,
    (∀ x, x ∈ l → x ∈ l0) →
    (∀ tok v, (tok, v) ∈ token_mapping st →
       entity_tokens (r_tokenizer st) !! v = Some tok ∧ ∃ ty, (ty, v) ∈ l0) →
    ∀ tok v, (tok, v) ∈ token_mapping (fold_left redact_visit l st) →
      entity_tokens (r_tokenizer (fold_left redact_visit l st)) !! v = Some tok ∧
      ∃ ty, (ty, v) ∈ l0) as H.
  { clear l. induction l as [|[ty m] l IH]; intros l0 st Hsub Hst; [done|].
    rewrite fold_left_step. apply IH; [intros x Hx; apply Hsub; by right|].
    intros tok v Hin. rewrite redact_visit_mapping in Hin.
    rewrite redact_visit_tokenizer. cbn [fst snd] in *.
    apply dict_elem_of_set in Hin as [[-> ->]|Hin].
    - split; [apply generate_token_lookup|]. exists ty. apply Hsub. by left.
    - destruct (Hst _ _ Hin) as [H1 H2]. split; [|done].
      by apply generate_token_mono. }
  intros st. by apply H.
Qed.

End Redaction.

(** X13. When no detected entity type lies outside the role's allowed set,
    in particular when nothing is detected, [redact_document] returns the
    text as it is with an empty map, mints no token and takes no draw. *)
Theorem redact_nothing_withheld
    (rt : Runtime) (sd : SafeDisclosure) (os : Entropy) (text role : string)
    (custom : option (list (string * list string))) :
  withheld (get_allowed_entities (role_manager sd) role)
    (_find_entities sd text custom) = [] →
  redact_document rt sd os text role custom = ((text, []), sd, os).
Proof.
  intros H. unfold redact_document, redact_loop.
  rewrite redact_types_filter, H. cbn [fold_left redacted_text token_mapping
    r_tokenizer r_entropy]. by destruct sd.
Qed.

Lemma redact_nothing_withheld_witness :
  redact_document canonical_runtime SafeDisclosure_init (entropy_of [])
    "Hello John Doe" "internal" None
  = (("Hello John Doe", []), SafeDisclosure_init, entropy_of []).
Proof. apply redact_nothing_withheld. vm_compute. reflexivity. Defined.

(** X14. Every entry of the map [redact_document] returns pairs a detected
    value of a type outside the allowed set with the token the instance
    now holds for that value; and the keys of the map are exactly the
    tokens of these values. *)
Theorem redact_map_entries
    (rt : Runtime) (sd : SafeDisclosure) (os : Entropy) (text role : string)
    (custom : option (list (string * list string))) :
  let r := redact_document rt sd os text role custom in
  let hidden := withheld (get_allowed_entities (role_manager sd) role)
                  (_find_entities sd text custom) in
  (∀ tok v, (tok, v) ∈ r.1.1.2 →
     entity_tokens (tokenizer r.1.2) !! v = Some tok ∧
     ∃ ty S, (ty, S) ∈ hidden ∧ v ∈ S) ∧
  (∀ tok, tok ∈ Dict.keys r.1.1.2 ↔
     ∃ ty S v, (ty, S) ∈ hidden ∧ v ∈ S ∧
               entity_tokens (tokenizer r.1.2) !! v = Some tok).
Proof.
  cbn zeta. unfold redact_document. cbn [fst snd tokenizer].
  rewrite redact_loop_visits.
  set (l := visits _ _ _). set (st0 := Build_Redaction _ _ _ _).
  assert (Hsound : ∀ tok v, (tok, v) ∈ token_mapping (fold_left redact_visit l st0) →
            entity_tokens (r_tokenizer (fold_left redact_visit l st0)) !! v = Some tok ∧
            ∃ ty S, (ty, S) ∈ withheld (get_allowed_entities (role_manager sd) role)
                                 (_find_entities sd text custom) ∧ v ∈ S).
  { intros tok v Hin.
    destruct (redact_visits_entries l st0) with (tok := tok) (v := v) as [H1 [ty H2]];
      [intros ? ? Hnil; by apply elem_of_nil in Hnil|done|].
    split; [done|]. apply elem_of_visits in H2 as (S & ? & ?). by exists ty, S. }
  split; [exact Hsound|].
  intros tok. split.
  - intros Hk. unfold Dict.keys in Hk. apply list_elem_of_fmap in Hk as ([tok' v] & -> & Hin).
    destruct (Hsound _ _ Hin) as (H1 & ty & S & H2 & H3). by exists ty, S, v.
  - intros (ty & S & v & Hin & Hv & Htok).
    assert ((ty, v) ∈ l) as Hl by (apply elem_of_visits; by exists S).
    clear Hsound. revert Htok. generalize st0. clear st0.
    induction l as [|[ty0 m] l IH]; intros st0 Htok; [by apply elem_of_nil in Hl|].
    rewrite fold_left_step in *. apply elem_of_cons in Hl as [Heq|Hl].
    + injection Heq as <- <-.
      assert (tok ∈ Dict.keys (token_mapping (redact_visit st0 (ty, v)))) as Hk.
      { assert (entity_tokens (r_tokenizer (redact_visit st0 (ty, v))) !! v
                = Some (generate_token (r_tokenizer st0) (r_entropy st0) ty v).1.1)
          as Hg by (rewrite redact_visit_tokenizer; apply generate_token_lookup).
        apply (redact_visits_mono l) in Hg. rewrite Hg in Htok. injection Htok as <-.
        rewrite redact_visit_mapping. apply dict_keys_set. by left. }
      revert Hk. generalize (redact_visit st0 (ty, v)). clear.
      induction l as [|tm l IH]; intros st Hk; [done|].
      rewrite fold_left_step. apply IH. rewrite redact_visit_mapping.
      apply dict_keys_set. by right.
    + by apply IH.
Qed.

Lemma redact_map_entries_witness :
  let r := redact_document canonical_runtime SafeDisclosure_init
             (entropy_of ["0123456789abcdef"; "fedcba9876543210"])
             scenario_text "internal" None in
  let hidden := withheld (get_allowed_entities (role_manager SafeDisclosure_init) "internal")
                  (_find_entities SafeDisclosure_init scenario_text None) in
  (∀ tok v, (tok, v) ∈ r.1.1.2 →
     entity_tokens (tokenizer r.1.2) !! v = Some tok ∧
     ∃ ty S, (ty, S) ∈ hidden ∧ v ∈ S) ∧
  (∀ tok, tok ∈ Dict.keys r.1.1.2 ↔
     ∃ ty S v, (ty, S) ∈ hidden ∧ v ∈ S ∧
               entity_tokens (tokenizer r.1.2) !! v = Some tok).
Proof. apply redact_map_entries. Defined.

(** X15. [redact_document] gives tokens to nothing but detected values of
    types outside the allowed set: a value that has a token after the call
    had one before or is such a value. *)
Theorem redact_mints_only_withheld
    (rt : Runtime) (sd : SafeDisclosure) (os : Entropy) (text role : string)
    (custom : option (list (string * list string))) (v : string) :
  is_Some (entity_tokens
             (tokenizer (redact_document rt sd os text role custom).1.2) !! v) →
  is_Some (entity_tokens (tokenizer sd) !! v) ∨
  ∃ ty S, (ty, S) ∈ withheld (get_allowed_entities (role_manager sd) role)
                       (_find_entities sd text custom) ∧ v ∈ S.
Proof.
  unfold redact_document. cbn [fst snd tokenizer]. rewrite redact_loop_visits.
  intros H. apply redact_visits_minted in H as [H|[ty H]]; [by left|].
  right. apply elem_of_visits in H as (S & ? & ?). by exists ty, S.
Qed.

Lemma redact_mints_only_withheld_witness :
  is_Some (entity_tokens (tokenizer SafeDisclosure_init) !! "555-123-4567") ∨
  ∃ ty S, (ty, S) ∈ withheld (get_allowed_entities (role_manager SafeDisclosure_init)
                                "internal")
                       (_find_entities SafeDisclosure_init scenario_text None) ∧
          "555-123-4567" ∈ S.
Proof.
  apply (redact_mints_only_withheld canonical_runtime SafeDisclosure_init
           (entropy_of ["0123456789abcdef"; "fedcba9876543210"])).
  vm_compute. by eexists.
Defined.

(** ** core.py: redacting the same text again *)

Section Repeat.
Implicit Types (st : Redaction) (l : list (string * string)).

(** With every value already known, the loops only read the table. *)
Lemma redact_visits_known_values l : ∀ st,
  (∀ tm, tm ∈ l → is_Some (entity_tokens (r_tokenizer st) !! tm.2)) →
  fold_left redact_visit l st
  = let acc := fold_left (substitute (entity_tokens (r_tokenizer st))) l
                 (redacted_text st, token_mapping st) in
    {| r_tokenizer := r_tokenizer st; r_entropy := r_entropy st;
       redacted_text := acc.1; token_mapping := acc.2 |}.
Proof.
  induction l as [|[ty m] l IH]; intros st Hknown; [by destruct st|].
  rewrite !fold_left_step.
  destruct (Hknown (ty, m)) as [t Ht]; [by left|]. cbn [fst snd] in Ht.
  assert (redact_visit st (ty, m)
          = {| r_tokenizer := r_tokenizer st; r_entropy := r_entropy st;
               redacted_text := Str.replace m t (redacted_text st);
               token_mapping := Dict.set (token_mapping st) t m |}) as Hstep
    by (unfold redact_visit, redact_match; cbn [fst snd];
        by rewrite (generate_token_known _ _ _ _ _ Ht)).
  rewrite Hstep, IH.
  - cbn [r_tokenizer r_entropy redacted_text token_mapping].
    assert (substitute (entity_tokens (r_tokenizer st))
              (redacted_text st, token_mapping st) (ty, m)
            = (Str.replace m t (redacted_text st), Dict.set (token_mapping st) t m))
      as -> by (unfold substitute; cbn [fst snd]; by rewrite Ht).
    reflexivity.
  - intros tm Hin. cbn [r_tokenizer]. apply Hknown. by right.
Qed.

(** Whatever the loops mint, their effect on the text and the map is the
    substitution read from the table they leave. *)
Lemma redact_visits_substitute l : ∀ st,
  let st' := fold_left redact_visit l st in
  (redacted_text st', token_mapping st')
  = fold_left (substitute (entity_tokens (r_tokenizer st'))) l
      (redacted_text st, token_mapping st).
Proof.
  induction l as [|[ty m] l IH]; intros st; [done|].
  cbn zeta in *. rewrite !fold_left_step. rewrite IH. f_equal.
  unfold substitute. cbn [fst snd].
  assert (entity_tokens (r_tokenizer (fold_left redact_visit l (redact_visit st (ty, m))))
            !! m
          = Some (generate_token (r_tokenizer st) (r_entropy st) ty m).1.1) as ->.
  { apply redact_visits_mono. rewrite redact_visit_tokenizer.
    apply generate_token_lookup. }
  cbn [default]. by rewrite redact_visit_text, redact_visit_mapping.
Qed.

Lemma redact_loop_again rt sd os text role custom :
  let s1 := redact_loop rt sd os text role custom in
  redact_loop rt
    {| tokenizer := r_tokenizer s1; role_manager := role_manager sd;
       entity_patterns := entity_patterns sd |}
    (r_entropy s1) text role custom
  = s1.
Proof.
  cbn zeta. rewrite !redact_loop_visits.
  cbn [tokenizer role_manager]. unfold _find_entities. cbn [entity_patterns].
  fold (_find_entities sd text custom).
  set (l := visits _ _ _).
  set (s0 := {| r_tokenizer := tokenizer sd; r_entropy := os;
                redacted_text := text; token_mapping := [] |}).
  set (s1 := fold_left redact_visit l s0).
  rewrite redact_visits_known_values
    by (intros tm Hin; cbn [r_tokenizer]; by apply redact_visits_known).
  cbn [r_tokenizer r_entropy redacted_text token_mapping].
  pose proof (redact_visits_substitute l s0) as Hs. cbn zeta in Hs. fold s1 in Hs.
  change (redacted_text s0, token_mapping s0) with (text, @nil (string * string)) in Hs.
  rewrite <- Hs. cbn [fst snd]. by destruct s1.
Qed.

End Repeat.

(** X16. Redacting a text a second time on the same instance, for the same
    role and custom entities, returns the same redacted text and the same
    map, and leaves the instance and the entropy source as the first call
    left them. *)
Theorem redact_document_repeatable
    (rt : Runtime) (sd : SafeDisclosure) (os : Entropy) (text role : string)
    (custom : option (list (string * list string))) :
  let r1 := redact_document rt sd os text role custom in
  redact_document rt r1.1.2 r1.2 text role custom = r1.
Proof.
  cbn zeta. unfold redact_document. cbn [fst snd].
  by rewrite redact_loop_again.
Qed.

(** ** core.py: restoring *)

Section Replace.
Implicit Types (s a old new tok v : string) (c : ascii).

Lemma replace_from_absent old new : ∀ s,
  Str.contains old s = false → Str.replace_from old new 0 s = s.
Proof.
  induction s as [|x s IH]; intros H; [done|].
  cbn [Str.contains] in H. apply orb_false_iff in H as [H1 H2].
  cbn [Str.replace_from]. by rewrite H1, IH.
Qed.

Lemma replace_absent old new s :
  Str.contains old s = false → Str.replace old new s = s.
Proof.
  destruct old as [|o old]; [by rewrite contains_empty|].
  apply replace_from_absent.
Qed.

Lemma replace_from_drop old new n : ∀ s,
  Str.replace_from old new n s = Str.replace_from old new 0 (Str.drop n s).
Proof.
  induction n as [|n IH]; intros [|x s]; cbn [Str.replace_from Str.drop];
    first [done | apply IH].
Qed.

Lemma startswith_split p : ∀ s,
  Str.startswith p s = true → s = p +:+ Str.drop (String.length p) s.
Proof.
  induction p as [|c p IH]; intros [|x s] H; cbn [Str.startswith] in H; try done.
  destruct (Ascii.eqb_spec c x) as [->|]; [|done].
  cbn [String.length Str.drop]. change (String x p +:+ ?r) with (String x (p +:+ r)).
  f_equal. by apply IH.
Qed.

Lemma replace_from_hit old new rest :
  old ≠ "" →
  Str.replace_from old new 0 (old +:+ rest)
  = new +:+ Str.replace_from old new 0 rest.
Proof.
  destruct old as [|c o]; [done|]. intros _.
  change (String c o +:+ rest) with (String c (o +:+ rest)).
  cbn [Str.replace_from].
  change (String c (o +:+ rest)) with (String c o +:+ rest).
  rewrite startswith_app.
  replace (String.length (String c o) - 1)%nat with (String.length o)
    by (cbn [String.length]; lia).
  by rewrite replace_from_drop, drop_app.
Qed.

Lemma all_drop f n : ∀ s, Str.all f s = true → Str.all f (Str.drop n s) = true.
Proof.
  induction n as [|n IH]; intros [|x s] H; cbn [Str.drop]; try done.
  cbn [Str.all] in H. apply andb_true_iff in H as [_ H]. by apply IH.
Qed.

Lemma take_app k : ∀ a b,
  (k ≤ String.length a)%nat → Str.take k (a +:+ b) = Str.take k a.
Proof.
  induction k as [|k IH]; intros a b H; [reflexivity|].
  destruct a as [|x a]; [cbn [String.length] in H; lia|].
  change (String x a +:+ b) with (String x (a +:+ b)). cbn [Str.take].
  f_equal. apply IH. cbn [String.length] in H. lia.
Qed.

Lemma get_length k : ∀ s c, String.get k s = Some c → (k < String.length s)%nat.
Proof.
  induction k as [|k IH]; intros [|x s] c H; cbn in *; try done; try lia.
  apply IH in H. lia.
Qed.

(** Replacing a value by a token and the token by the value gives the text
    back, when some character of the token, at its first place in the
    token, is absent from the text. *)
Lemma replace_round_trip tok v c k s :
  String.get k tok = Some c →
  Str.all (Str.differs c) (Str.take k tok) = true →
  v ≠ "" →
  Str.all (Str.differs c) s = true →
  Str.replace tok v (Str.replace v tok s) = s.
Proof.
  intros Hk Htok Hv Hs.
  assert (tok ≠ "") as Hne by (intros ->; by destruct k).
  assert (∀ n s, (String.length s ≤ n)%nat → Str.all (Str.differs c) s = true →
          ∀ a, Str.all (Str.differs c) a = true →
          Str.replace_from tok v 0 (a +:+ Str.replace_from v tok 0 s) = a +:+ s) as H.
  assert (Str.all (Str.differs c) (Str.take k "") = true) as Hnil by by destruct k.
  { clear s Hs. induction n as [|n IH]; intros s Hlen Hs a Ha.
    - destruct s; [|cbn in Hlen; lia]. cbn [Str.replace_from].
      by rewrite (replace_from_past tok v c k "" Hk Hnil a Ha).
    - destruct s as [|x s]; [cbn [Str.replace_from];
        by rewrite (replace_from_past tok v c k "" Hk Hnil a Ha)|].
      cbn [Str.replace_from].
      destruct (Str.startswith v (String x s)) eqn:E.
      + rewrite (replace_from_drop v tok (String.length v - 1)).
        assert (Str.drop (String.length v - 1) s
                = Str.drop (String.length v) (String x s)) as ->.
        { destruct v as [|y v]; [done|].
          replace (String.length (String y v) - 1)%nat with (String.length v)
            by (cbn [String.length]; lia).
          reflexivity. }
        set (s2 := Str.drop (String.length v) (String x s)).
        assert (Str.all (Str.differs c) s2 = true) as Hs2 by by apply all_drop.
        assert (String.length s2 ≤ n)%nat as Hlen2.
        { unfold s2. rewrite drop_length. cbn [String.length] in *.
          destruct v; [done|]. cbn [String.length]. lia. }
        rewrite (replace_from_past tok v c k _ Hk); [|by rewrite take_app
          by (apply get_length in Hk; lia)|done].
        rewrite replace_from_hit by done.
        pose proof (IH s2 Hlen2 Hs2 "" eq_refl) as Hrec.
        change ("" +:+ ?r) with r in Hrec. rewrite Hrec.
        by rewrite (startswith_split v (String x s) E) at 1.
      + cbn [Str.all] in Hs. apply andb_true_iff in Hs as [Hx Hs].
        rewrite <- (app_snoc a x (Str.replace_from v tok 0 s)).
        rewrite IH; [apply app_snoc|cbn [String.length] in Hlen; lia|done|].
        rewrite all_app, Ha. cbn [Str.all]. by rewrite Hx. }
  destruct tok as [|t0 tok]; [done|]. destruct v as [|v0 v]; [done|].
  cbn [Str.replace]. apply (H (String.length s) s (le_n _) Hs "" eq_refl).
Qed.

End Replace.

(** X17. [restore_document] returns the text unchanged when every entry
    of the map is for a token that does not occur in the text or whose
    entity type the role may not see. *)
Theorem restore_nothing_to_restore
    (sd : SafeDisclosure) (text : string) (mapping : list (string * string))
    (role : string) :
  (∀ e, e ∈ mapping →
        Str.contains e.1 text = false ∨
        get_entity_type_from_token (tokenizer sd) e.1
          ∉ get_allowed_entities (role_manager sd) role) →
  restore_document sd text mapping role = text.
Proof.
  intros H. unfold restore_document. destruct (negb _); [done|].
  induction mapping as [|e mapping IH]; [done|].
  rewrite fold_left_step.
  assert (restore_entry (tokenizer sd) (get_allowed_entities (role_manager sd) role)
            text e = text) as ->.
  { unfold restore_entry. destruct (H e) as [Habs|Hty]; [by left| |].
    - rewrite (replace_absent e.1 e.2 text Habs). by destruct (bool_decide _).
    - by rewrite bool_decide_eq_false_2. }
  apply IH. intros e' He'. apply H. by right.
Qed.

Lemma restore_nothing_to_restore_witness :
  restore_document SafeDisclosure_init "call TOKEN_PHONE_3515c89cffc1 today"
    [("TOKEN_PHONE_3515c89cffc1", "555-123-4567");
     ("TOKEN_EMAIL_99865b07852e", "a@b.co")] "manager"
  = "call TOKEN_PHONE_3515c89cffc1 today".
Proof.
  apply restore_nothing_to_restore. intros e He.
  apply elem_of_cons in He as [->|He].
  - right. apply (bool_decide_unpack _). vm_compute. exact I.
  - apply list_elem_of_singleton in He as ->. left. reflexivity.
Defined.

(** ** core.py: redacting and restoring one value *)

Lemma redact_single rt sd os text role custom ty v :
  withheld (get_allowed_entities (role_manager sd) role)
    (_find_entities sd text custom) = [(ty, {[v]})] →
  entity_tokens (tokenizer sd) !! v = None →
  redact_loop rt sd os text role custom
  = let token := make_token (token_prefix (tokenizer sd)) ty
                   (entity_hash ty v (hex_values os (drawn os))) in
    {| r_tokenizer :=
         {| token_prefix := token_prefix (tokenizer sd);
            token_counter := token_counter (tokenizer sd);
            entity_tokens := <[v := token]> (entity_tokens (tokenizer sd));
            token_entities := <[token := (ty, v)]> (token_entities (tokenizer sd)) |};
       r_entropy := (token_hex os).2;
       redacted_text := Str.replace v token text;
       token_mapping := [(token, v)] |}.
Proof.
  intros Hw Hv.
  assert (ty ∉ get_allowed_entities (role_manager sd) role) as Hty.
  { assert ((ty, ({[v]} : gset string)) ∈
              withheld (get_allowed_entities (role_manager sd) role)
                (_find_entities sd text custom)) as Hin by (rewrite Hw; by left).
    by apply list_elem_of_filter in Hin as [Hin _]. }
  unfold redact_loop. rewrite redact_types_filter, Hw. cbn [fold_left].
  unfold redact_type. cbn [fst snd]. rewrite bool_decide_eq_false_2 by done.
  rewrite set_iter_singleton. cbn [fold_left].
  by rewrite redact_match_fresh.
Qed.

Lemma default_token_marker ty h :
  String.get 5 (make_token "TOKEN_" ty h) = Some "_"%char ∧
  Str.all (Str.differs "_") (Str.take 5 (make_token "TOKEN_" ty h)) = true.
Proof. by split. Qed.

(** X18. One value, same instance.  When a text without underscores has a
    single detected value outside the target role's allowed set, not seen
    by the instance before, then redacting it and restoring the result on
    the same instance, for a role that may restore and may see the value's
    type, gives back the text. *)
Theorem single_value_round_trip
    (rt : Runtime) (sd : SafeDisclosure) (os : Entropy) (text role role' : string)
    (custom : option (list (string * list string))) (ty v : string) :
  withheld (get_allowed_entities (role_manager sd) role)
    (_find_entities sd text custom) = [(ty, {[v]})] →
  v ≠ "" →
  entity_tokens (tokenizer sd) !! v = None →
  token_prefix (tokenizer sd) = "TOKEN_" →
  Str.all (Str.differs "_") text = true →
  can_restore (role_manager sd) role' = true →
  ty ∈ get_allowed_entities (role_manager sd) role' →
  let r := redact_document rt sd os text role custom in
  restore_document r.1.2 r.1.1.1 r.1.1.2 role' = text.
Proof.
  intros Hw Hne Hv Hp Htext Hcan Hty. cbn zeta.
  unfold redact_document. cbn [fst snd].
  rewrite (redact_single rt sd os text role custom ty v Hw Hv). cbn zeta.
  cbn [redacted_text token_mapping r_tokenizer].
  unfold restore_document. cbn [role_manager tokenizer]. rewrite Hcan.
  cbn [negb fold_left]. unfold restore_entry. cbn [fst snd].
  unfold get_entity_type_from_token. cbn [token_entities].
  rewrite lookup_insert_eq. cbn [fst]. rewrite bool_decide_eq_true_2 by done.
  rewrite Hp. destruct (default_token_marker ty
                          (entity_hash ty v (hex_values os (drawn os)))) as [H1 H2].
  by apply (replace_round_trip _ _ "_" 5).
Qed.

Lemma single_value_round_trip_witness :
  let r := redact_document canonical_runtime SafeDisclosure_init
             (entropy_of ["0123456789abcdef"]) "write to a@b.co today" "public" None in
  restore_document r.1.2 r.1.1.1 r.1.1.2 "security" = "write to a@b.co today".
Proof.
  apply (single_value_round_trip canonical_runtime SafeDisclosure_init
           (entropy_of ["0123456789abcdef"]) "write to a@b.co today" "public"
           "security" None "email" "a@b.co").
  - vm_compute. reflexivity.
  - discriminate.
  - reflexivity.
  - reflexivity.
  - reflexivity.
  - reflexivity.
  - apply (bool_decide_unpack _). vm_compute. exact I.
Defined.



(** ** core.py: loading a configuration *)

Section Update.
Context {V : Type}.
Implicit Types (d other : list (string * V)) (k : string) (v : V).

Lemma dict_keys_set_prefix d k v :
  ∃ more, Dict.keys (Dict.set d k v) = (Dict.keys d ++ more)%list.
Proof.
  unfold Dict.keys. induction d as [|[k0 v0] d IH]; cbn [Dict.set].
  - by exists [k].
  - destruct (String.eqb k0 k).
    + exists []. by rewrite app_nil_r.
    + destruct IH as [more IH]. exists more.
      rewrite !fmap_cons. cbn [fst]. by rewrite IH.
Qed.

Lemma dict_update_keys_prefix other : ∀ d,
  ∃ more, Dict.keys (dict_update d other) = (Dict.keys d ++ more)%list.
Proof.
  unfold dict_update. induction other as [|[k v] other IH]; intros d.
  - exists []. by rewrite app_nil_r.
  - rewrite fold_left_step. cbn [fst snd].
    destruct (IH (Dict.set d k v)) as [more1 H1].
    destruct (dict_keys_set_prefix d k v) as [more2 H2].
    exists (more2 ++ more1)%list. by rewrite H1, H2, app_assoc.
Qed.

Lemma dict_update_get_other other : ∀ d k,
  k ∉ Dict.keys other → Dict.get (dict_update d other) k = Dict.get d k.
Proof.
  unfold dict_update, Dict.keys.
  induction other as [|[k0 v0] other IH]; intros d k Hk; [done|].
  rewrite fold_left_step. cbn [fst snd]. rewrite fmap_cons in Hk. cbn [fst] in Hk.
  apply not_elem_of_cons in Hk as [Hne Hk].
  rewrite IH by done. by apply dict_get_set_ne.
Qed.

Lemma dict_update_get_last o1 o2 d k v :
  k ∉ Dict.keys o2 →
  Dict.get (dict_update d (o1 ++ (k, v) :: o2)) k = Some v.
Proof.
  intros Hk. unfold dict_update. rewrite fold_left_app, fold_left_step.
  cbn [fst snd]. fold (dict_update (Dict.set (fold_left (λ d kv, Dict.set d kv.1 kv.2) o1 d) k v) o2).
  rewrite dict_update_get_other by done. apply dict_get_set_eq.
Qed.

End Update.

(** X20. Loading a configuration merges it into the instance: every entity
    type keeps its place in the pattern table and new types come after
    them, a type the configuration does not mention keeps its pattern, a
    type it mentions gets the pattern of its last entry, and the tokenizer
    is left alone; a missing or unparsable file raises and loads nothing. *)
Theorem load_config_merges
    (sd : SafeDisclosure) (path : string) (config : Config)
    (ps : list (string * Re.pattern)) :
  cfg_patterns config = Some ps →
  ∃ sd', load_config sd path (Json config) = inr sd' ∧
    tokenizer sd' = tokenizer sd ∧
    (∃ more, Dict.keys (entity_patterns sd')
             = (Dict.keys (entity_patterns sd) ++ more)%list) ∧
    (∀ T, T ∉ Dict.keys ps →
          Dict.get (entity_patterns sd') T = Dict.get (entity_patterns sd) T) ∧
    (∀ p1 T p p2, ps = (p1 ++ (T, p) :: p2)%list → T ∉ Dict.keys p2 →
          Dict.get (entity_patterns sd') T = Some p) ∧
    load_config sd path NoSuchFile
      = inl (FileNotFoundError ("Configuration file not found: " +:+ path)) ∧
    load_config sd path NotJson
      = inl (ValueError ("Invalid JSON in configuration file: " +:+ path)).
Proof.
  intros Hps. eexists. split; [reflexivity|]. cbn [tokenizer entity_patterns].
  rewrite Hps. split; [done|]. split; [apply dict_update_keys_prefix|].
  split; [intros T HT; by apply dict_update_get_other|].
  split; [|done]. intros p1 T p p2 -> HT. by apply dict_update_get_last.
Qed.

Lemma load_config_merges_witness :
  ∃ sd', load_config SafeDisclosure_init "config.json"
           (Json {| cfg_patterns := Some [("phone", [Re.exactly 10 Re.digit])];
                    cfg_roles := None |}) = inr sd' ∧
    tokenizer sd' = tokenizer SafeDisclosure_init ∧
    (∃ more, Dict.keys (entity_patterns sd')
             = (Dict.keys (entity_patterns SafeDisclosure_init) ++ more)%list) ∧
    (∀ T, T ∉ Dict.keys [("phone", [Re.exactly 10 Re.digit])] →
          Dict.get (entity_patterns sd') T
          = Dict.get (entity_patterns SafeDisclosure_init) T) ∧
    (∀ p1 T p p2,
          [("phone", [Re.exactly 10 Re.digit])] = (p1 ++ (T, p) :: p2)%list →
          T ∉ Dict.keys p2 →
          Dict.get (entity_patterns sd') T = Some p) ∧
    load_config SafeDisclosure_init "config.json" NoSuchFile
      = inl (FileNotFoundError ("Configuration file not found: " +:+ "config.json")) ∧
    load_config SafeDisclosure_init "config.json" NotJson
      = inl (ValueError ("Invalid JSON in configuration file: " +:+ "config.json")).
Proof. apply load_config_merges. reflexivity. Defined.

(** ** tokenizer.py: tokens of two instances and of different types *)

Lemma app_inj_length (a a' b b' : string) :
  a +:+ b = a' +:+ b' → String.length b = String.length b' → a = a' ∧ b = b'.
Proof.
  revert a'. induction a as [|x a IH]; intros [|x' a'] H Hlen.
  - done.
  - exfalso. change ("" +:+ b) with b in H. rewrite H, length_app in Hlen.
    cbn [String.length] in Hlen. lia.
  - exfalso. change ("" +:+ b') with b' in H. rewrite <- H, length_app in Hlen.
    cbn [String.length] in Hlen. lia.
  - change (String x a +:+ b) with (String x (a +:+ b)) in H.
    change (String x' a' +:+ b') with (String x' (a' +:+ b')) in H.
    injection H as -> H. destruct (IH a' H Hlen) as [-> ->]. done.
Qed.

(** C8, amended.  Two new instances give the same (type, value) pair
    different tokens exactly when their prefixes differ or the truncated
    digests of their two draws differ.  With the same prefix, two draws
    whose twelve digits coincide give the same token. *)
Theorem fresh_tokens_differ_iff
    (prefix1 prefix2 : string) (os1 os2 : Entropy) (ty v : string) :
  (generate_token (Tokenizer_new prefix1) os1 ty v).1.1
    ≠ (generate_token (Tokenizer_new prefix2) os2 ty v).1.1
  ↔ prefix1 ≠ prefix2 ∨
    entity_hash ty v (token_hex os1).1 ≠ entity_hash ty v (token_hex os2).1.
Proof.
  unfold generate_token. cbn [entity_tokens Tokenizer_new]. rewrite !lookup_empty.
  cbn [fst snd token_hex token_prefix]. unfold make_token.
  set (h1 := entity_hash ty v _). set (h2 := entity_hash ty v _).
  assert (prefix1 +:+ Str.upper ty +:+ "_" +:+ h1
          = prefix2 +:+ Str.upper ty +:+ "_" +:+ h2
          ↔ prefix1 = prefix2 ∧ h1 = h2) as Heq.
  { split; [|by intros [-> ->]].
    intros E. apply app_inj_length in E as [Hp E].
    - split; [done|]. by do 2 apply (inj (String.app _)) in E.
    - rewrite !length_app. unfold h1, h2. by rewrite !entity_hash_length. }
  rewrite Heq. split.
  - intros H. destruct (decide (prefix1 = prefix2)) as [Hp|Hp]; [|by left].
    right. intros Hh. by apply H.
  - intros [H|H] [Hp Hh]; by apply H.
Qed.

(** C8 as stated fails: two new instances that take different draws mint
    the same token for the same email address, because the two digests
    agree on their first twelve digits. *)
Lemma fresh_tokens_collide_counterexample :
  let os1 := entropy_of ["0000df5ef34addd2"] in
  let os2 := entropy_of ["0000662a164b64bb"] in
  (token_hex os1).1 ≠ (token_hex os2).1 ∧
  (generate_token Tokenizer_init os1 "email" "a@b.co").1.1
  = (generate_token Tokenizer_init os2 "email" "a@b.co").1.1 ∧
  (generate_token Tokenizer_init os1 "email" "a@b.co").1.1 = "TOKEN_EMAIL_9f7dc0fb1070".
Proof. vm_compute. repeat split. discriminate. Qed.

(** X21. Two newly minted tokens of instances with the same prefix are
    equal only if their entity types agree up to case and their twelve
    digits agree: values of different types never share a token. *)
Theorem minted_tokens_equal_types
    (tk1 tk2 : Tokenizer) (os1 os2 : Entropy) (ty1 ty2 v1 v2 : string) :
  token_prefix tk1 = token_prefix tk2 →
  entity_tokens tk1 !! v1 = None →
  entity_tokens tk2 !! v2 = None →
  (generate_token tk1 os1 ty1 v1).1.1 = (generate_token tk2 os2 ty2 v2).1.1 →
  Str.upper ty1 = Str.upper ty2 ∧
  entity_hash ty1 v1 (token_hex os1).1 = entity_hash ty2 v2 (token_hex os2).1.
Proof.
  intros Hp H1 H2. unfold generate_token. rewrite H1, H2. unfold token_hex.
  cbn [fst snd]. unfold make_token. rewrite Hp. intros E.
  apply (inj (String.app _)) in E.
  set (h1 := entity_hash ty1 v1 _) in *. set (h2 := entity_hash ty2 v2 _) in *.
  assert ((Str.upper ty1 +:+ "_") +:+ h1 = (Str.upper ty2 +:+ "_") +:+ h2) as E'.
  { clear -E. revert E. generalize (Str.upper ty1) (Str.upper ty2).
    intros a b E.
    assert (∀ s t u, (s +:+ t) +:+ u = s +:+ t +:+ u) as Hassoc
      by (intros s t u; induction s as [|x s IH]; [done|];
          exact (f_equal (String x) IH)).
    by rewrite !Hassoc. }
  apply app_inj_length in E' as [E1 E2];
    [|unfold h1, h2; by rewrite !entity_hash_length].
  split; [|done].
  apply app_inj_length in E1 as [E1 _]; done.
Qed.

Lemma minted_tokens_equal_types_witness :
  Str.upper "email" = Str.upper "email" ∧
  entity_hash "email" "a@b.co" (token_hex (entropy_of ["000000000035a1d1"])).1
  = entity_hash "email" "c@d.org" (token_hex (entropy_of ["0000010005764975"])).1.
Proof.
  apply (minted_tokens_equal_types Tokenizer_init Tokenizer_init);
    [reflexivity|reflexivity|reflexivity|vm_compute; reflexivity].
Defined.
